(** * PCA image compression: a shallow embedding of [compress_image.py]

    The development follows [compress_image] line by line.  Python
    integers are modelled by [Z].  A Python float is a binary64 number:
    finite (its value, a rational), an infinity or a NaN; the arithmetic
    of line 31 and of the reported compression ratio rounds to nearest,
    ties to even, overflows to an infinity, and [int()] raises on an
    infinity and on a NaN ([Float64], [Py]).  numpy arrays are modelled by
    a shape and the flat row-major list of their elements; the floats
    inside the arrays, which only the decomposition computes, are exact
    rationals.  The two libraries the function calls into, Pillow
    ([convert]) and scikit-learn ([PCA]), are interfaces; [compress_image]
    is verified against every implementation of them.  Where a property
    depends on what the decomposition computes, the decomposition is the
    one the specification describes ([SpecPCA]), in exact arithmetic.
    [compress_image] is the function from the decoded image to the image
    handed to the encoder; [compress_image_file] adds the file input and
    output ([Image.open], [save]) over a map from paths to contents, and
    [App] holds the upload and download views of [app.py] on top of it.
    The [print]s are outside the model. *)

From Stdlib Require Import ZArith QArith Qround Qabs Qpower.
From Stdlib Require Import List String Ascii Bool Lia Lqa.
Import ListNotations.

Open Scope Z_scope.

(** ** Binary64 floating point *)

Module Float64.

(** [2 ** e] *)
Definition pow2 (e : Z) : Q := (2 ^ e)%Q.

(** The integer nearest to [y], a tie going to the even one. *)
Definition round_int (y : Q) : Z :=
  let f := Qfloor y in
  let r := (y - inject_Z f)%Q in
  if Qle_bool r (1 # 2)
  then (if Qle_bool (1 # 2) r then (if Z.even f then f else f + 1) else f)
  else f + 1.

(** The binary exponent of a positive number:
    [2 ** ilog2 x <= x < 2 ** (ilog2 x + 1)]. *)
Definition ilog2 (x : Q) : Z :=
  let e0 := Z.log2 (Qnum x) - Z.log2 (Zpos (Qden x)) in
  if Qle_bool (pow2 e0) x then e0 else e0 - 1.

(** The exponent of the unit in the last place: 53 significant bits, and
    no exponent below that of the subnormal numbers. *)
Definition ulp_exponent (x : Q) : Z := Z.max (ilog2 x - 52) (-1074).

Definition round_pos (x : Q) : Q :=
  let e := ulp_exponent x in
  (inject_Z (round_int (x / pow2 e)) * pow2 e)%Q.

(** Rounding to the nearest number of 53 significant bits, ties to even,
    before the range is checked. *)
Definition round (x : Q) : Q :=
  match (x ?= 0)%Q with
  | Eq => 0%Q
  | Gt => round_pos x
  | Lt => (- round_pos (- x))%Q
  end.

(** The largest finite number, [(2 ** 53 - 1) * 2 ** 971]. *)
Definition max_float : Q := (inject_Z (2 ^ 53 - 1) * pow2 971)%Q.

(** A float: a finite number, an infinity with its sign, or a NaN.  The
    sign of a zero is not kept. *)
Inductive float : Type :=
| Finite (value : Q)
| Infinity (negative : bool)
| NaN.

Definition is_negative (x : Q) : bool := negb (Qle_bool 0 x).

(** The float an operation delivers when its exact result is [x]: [x]
    rounded, or the infinity of its sign when that lies beyond the
    largest finite number. *)
Definition of_Q (x : Q) : float :=
  let r := round x in
  if Qle_bool (Qabs r) max_float then Finite r
  else Infinity (is_negative x).

(** Multiplication *)
Definition mul (x y : float) : float :=
  match x, y with
  | NaN, _ | _, NaN => NaN
  | Finite a, Finite b => of_Q (a * b)
  | Infinity s, Infinity t => Infinity (xorb s t)
  | Infinity s, Finite b | Finite b, Infinity s =>
      if Qeq_bool b 0 then NaN else Infinity (xorb s (is_negative b))
  end.

(** Division by a number other than zero *)
Definition div (x y : float) : float :=
  match x, y with
  | NaN, _ | _, NaN => NaN
  | Finite a, Finite b => of_Q (a / b)
  | Infinity _, Infinity _ => NaN
  | Infinity s, Finite b => Infinity (xorb s (is_negative b))
  | Finite _, Infinity _ => Finite 0
  end.

(** A finite float: a number within the range. *)
Definition finite (x : float) : Prop :=
  match x with
  | Finite v => (Qabs v <= max_float)%Q
  | _ => False
  end.

End Float64.

Import Float64.

(** ** Python numbers and exceptions *)

Module Py.

(** [int(x)] on a finite number: truncation toward zero. *)
Definition int (x : Q) : Z := Z.quot (Qnum x) (Zpos (Qden x)).

(** Built-in [max] and [min] on two integers. *)
Definition max (a b : Z) : Z := Z.max a b.
Definition min (a b : Z) : Z := Z.min a b.

(** An exception: its class and its message. *)
Record exn : Type := Exn { exn_class : string; exn_msg : string }.

Definition ValueError (msg : string) : exn := Exn "ValueError" msg.
Definition IndexError (msg : string) : exn := Exn "IndexError" msg.
Definition OverflowError (msg : string) : exn := Exn "OverflowError" msg.
Definition ZeroDivisionError (msg : string) : exn :=
  Exn "ZeroDivisionError" msg.

(** A computation either raises or returns. *)
Definition result (A : Type) : Type := (exn + A)%type.

Definition ret {A} (a : A) : result A := inr a.
Definition raise {A} (e : exn) : result A := inl e.

Definition bind {A B} (c : result A) (k : A -> result B) : result B :=
  match c with
  | inl e => inl e
  | inr a => k a
  end.

(** [try: body  except Exception as e: handler e]. *)
Definition try_except {A} (body : result A) (handler : exn -> result A)
  : result A :=
  match body with
  | inl e => handler e
  | inr a => inr a
  end.

(** [acc = []; for x in xs: acc.append(body(x))], leaving the loop at the
    first exception. *)
Fixpoint for_each {A B} (body : A -> result B) (xs : list A) (acc : list B)
  : result (list B) :=
  match xs with
  | [] => ret acc
  | x :: xs' =>
      match body x with
      | inl e => inl e
      | inr y => for_each body xs' (acc ++ [y])
      end
  end.

(** [float(z)] on an integer, and the conversion of an integer operand
    in arithmetic with a float. *)
Definition float_of_int (z : Z) : result float :=
  match of_Q (inject_Z z) with
  | Finite v => ret (Finite v)
  | _ => raise (OverflowError "int too large to convert to float")
  end.

(** [z * x] with [z] an integer and [x] a float. *)
Definition int_mul_float (z : Z) (x : float) : result float :=
  match float_of_int z with
  | inl e => inl e
  | inr y => ret (mul y x)
  end.

(** [x * z] with [x] a float and [z] an integer. *)
Definition float_mul_int (x : float) (z : Z) : result float :=
  match float_of_int z with
  | inl e => inl e
  | inr y => ret (mul x y)
  end.

(** [x / y] on floats. *)
Definition float_truediv (x y : float) : result float :=
  match y with
  | Finite b =>
      if Qeq_bool b 0
      then raise (ZeroDivisionError "float division by zero")
      else ret (div x y)
  | _ => ret (div x y)
  end.

(** [x / z] with [x] a float and [z] an integer. *)
Definition float_div_int (x : float) (z : Z) : result float :=
  match float_of_int z with
  | inl e => inl e
  | inr y => float_truediv x y
  end.

(** [a / b] on integers: the quotient, rounded once. *)
Definition int_truediv (a b : Z) : result float :=
  if b =? 0 then raise (ZeroDivisionError "division by zero")
  else
    match of_Q (inject_Z a / inject_Z b) with
    | Finite v => ret (Finite v)
    | _ => raise (OverflowError
                    "integer division result too large for a float")
    end.

(** [int(x)] on a float. *)
Definition int_of_float (x : float) : result Z :=
  match x with
  | Finite v => ret (int v)
  | Infinity _ =>
      raise (OverflowError "cannot convert float infinity to integer")
  | NaN => raise (ValueError "cannot convert float NaN to integer")
  end.

(** [round(x, 1)] on a float: the exact value is rounded to the nearest
    tenth, a tie to the even one, and the tenth to the nearest float. *)
Definition round1 (x : float) : result float :=
  match x with
  | Finite v =>
      match of_Q (inject_Z (round_int (v * 10)) / 10) with
      | Finite r => ret (Finite r)
      | _ => raise (OverflowError "rounded value too large to represent")
      end
  | _ => ret x
  end.

(** [height, width, channels = t]. *)
Definition unpack3 (t : list nat) : result (nat * nat * nat) :=
  match t with
  | [a; b; c] => ret (a, b, c)
  | _ :: _ :: _ :: _ :: _ =>
      raise (ValueError "too many values to unpack (expected 3)")
  | _ => raise (ValueError "not enough values to unpack (expected 3)")
  end.

End Py.

Notation "x <- c ;; k" := (Py.bind c (fun x => k))
  (at level 61, c at next level, right associativity).
Notation "' pat <- c ;; k" := (Py.bind c (fun x => match x with pat => k end))
  (at level 61, pat pattern, c at next level, right associativity).

(** ** numpy arrays *)

Module Np.

(** An n-dimensional array: its shape and its elements in row-major order. *)
Record ndarray (A : Type) : Type :=
  NdArray { shape : list nat; data : list A }.
Arguments NdArray {A} shape data.
Arguments shape {A} n.
Arguments data {A} n.

(** A two-dimensional array. *)
Record matrix (A : Type) : Type :=
  Matrix { nrows : nat; ncols : nat; elems : list A }.
Arguments Matrix {A} nrows ncols elems.
Arguments nrows {A} m.
Arguments ncols {A} m.
Arguments elems {A} m.

Definition map_matrix {A B} (f : A -> B) (m : matrix A) : matrix B :=
  Matrix (nrows m) (ncols m) (map f (elems m)).

Definition map_ndarray {A B} (f : A -> B) (a : ndarray A) : ndarray B :=
  NdArray (shape a) (map f (data a)).

(** The matrix with entry [f i j] at row [i], column [j]. *)
Definition tabulate {A} (h w : nat) (f : nat -> nat -> A) : matrix A :=
  Matrix h w (flat_map (fun i => map (f i) (seq 0 w)) (seq 0 h)).

(** [m[i, j]] *)
Definition get {A} (d : A) (m : matrix A) (i j : nat) : A :=
  nth (i * ncols m + j) (elems m) d.

(** [a[:, :, channel]] on a three-dimensional array. *)
Definition get_channel {A} (d : A) (a : ndarray A) (channel : nat)
  : Py.result (matrix A) :=
  match shape a with
  | [h; w; c] =>
      if (channel <? c)%nat
      then Py.ret (Matrix h w
             (map (fun idx => nth (idx * c + channel) (data a) d)
                  (seq 0 (h * w))))
      else Py.raise (Py.IndexError "index is out of bounds for axis 2")
  | _ => Py.raise (Py.IndexError "too many indices for array")
  end.

Definition maximum (a b : Q) : Q := if Qle_bool a b then b else a.
Definition minimum (a b : Q) : Q := if Qle_bool a b then a else b.

(** [np.clip(x, lo, hi)] on one element: [minimum(maximum(x, lo), hi)]. *)
Definition clip1 (x lo hi : Q) : Q := minimum (maximum x lo) hi.

(** [np.clip(m, lo, hi)] *)
Definition clip (m : matrix Q) (lo hi : Q) : matrix Q :=
  map_matrix (fun x => clip1 x lo hi) m.

Definition same_shape {A} (a b : matrix A) : bool :=
  (nrows a =? nrows b)%nat && (ncols a =? ncols b)%nat.

(** [np.stack(arrays, axis=2)] on two-dimensional arrays: element
    [(i, j, c)] of the result is element [(i, j)] of [arrays[c]]. *)
Definition stack (arrays : list (matrix Q)) : Py.result (ndarray Q) :=
  match arrays with
  | [] => Py.raise (Py.ValueError "need at least one array to stack")
  | first :: _ =>
      if forallb (same_shape first) arrays
      then Py.ret (NdArray [nrows first; ncols first; List.length arrays]
             (flat_map (fun idx => map (fun m => nth idx (elems m) 0%Q) arrays)
                       (seq 0 (nrows first * ncols first))))
      else Py.raise
             (Py.ValueError "all input arrays must have the same shape")
  end.

(** The cast of one float to [uint8]: the fraction is dropped and the
    integer is reduced modulo 256. *)
Definition uint8_of_float (x : Q) : Z := Py.int x mod 256.

(** [a.astype(np.uint8)] *)
Definition astype_uint8 (a : ndarray Q) : ndarray Z :=
  map_ndarray uint8_of_float a.

End Np.

Import Np.

(** ** The two libraries *)

(** A Pillow image: its mode and the array [np.array(img)] gives. *)
Record pil_image : Type := PilImage { mode : string; pixels : ndarray Z }.

Definition np_array (img : pil_image) : ndarray Z := pixels img.

(** [Image.fromarray(a, mode)] *)
Definition fromarray (a : ndarray Z) (m : string) : pil_image := PilImage m a.

(** Pillow: [img.convert(mode)]. *)
Class Pillow : Type :=
  { convert : pil_image -> string -> pil_image }.

(** scikit-learn: [PCA(n_components=k)], [fit_transform] (which fits the
    model and returns the reduced data) and [inverse_transform]. *)
Class Sklearn : Type :=
  { PCA : Type;
    fit_transform : Z -> matrix Z -> Py.result (PCA * matrix Q);
    inverse_transform : PCA -> matrix Q -> Py.result (matrix Q) }.

(** ** Component count selector (lines 30-32) *)

Definition max_components (height width : Z) : Z := Py.min height width.

(** Lines 30-32.  The quality is a float, as the docstring has it and as
    [upload_file] passes it; the product and the quotient of line 31 are
    float operations, each rounded, and [int()] raises on an infinite or
    undefined quotient. *)
Definition n_components (height width : Z) (quality_percentage : float)
  : Py.result Z :=
  let max_components := Py.min height width in
  product <- Py.int_mul_float max_components quality_percentage ;;
  scaled <- Py.float_div_int product 100 ;;
  truncated <- Py.int_of_float scaled ;;
  let n_components := Py.max 1 truncated in
  let n_components := Py.min n_components max_components in
  Py.ret n_components.

(** The value line 31 hands to [int()] when nothing overflows:
    [max_components] and 100 converted to floats, the product rounded,
    the quotient rounded. *)
Definition scaled_quality (max_components : Z) (q : Q) : Q :=
  Float64.round
    (Float64.round (Float64.round (inject_Z max_components) * q)
     / Float64.round 100).

(** The clamp of the specification: at least [lo], at most [hi]. *)
Definition clamp (lo hi x : Z) : Z := Z.max lo (Z.min x hi).

(** ** [compress_image] *)

Section CompressImage.

Context {pillow : Pillow} {sklearn : Sklearn}.

(** Lines 19-22: convert to RGB if not already, then [np.array]. *)
Definition load_rgb_array (img : pil_image) : ndarray Z :=
  let img := if negb (mode img =? "RGB")%string
             then convert img "RGB" else img in
  np_array img.

(** Lines 39-53: the body of the loop over the channels. *)
Definition process_channel (img_array : ndarray Z) (n_components : Z)
    (channel : nat) : Py.result (matrix Q) :=
  channel_data <- get_channel 0 img_array channel ;;
  '(pca, channel_reduced) <- fit_transform n_components channel_data ;;
  channel_reconstructed <- inverse_transform pca channel_reduced ;;
  let channel_reconstructed := clip channel_reconstructed 0 255 in
  Py.ret channel_reconstructed.

(** Lines 23-62. *)
Definition compress_array (img_array : ndarray Z)
    (quality_percentage : float) : Py.result pil_image :=
  let original_shape := shape img_array in
  '(height, width, channels) <- Py.unpack3 original_shape ;;
  n_components <-
    n_components (Z.of_nat height) (Z.of_nat width) quality_percentage ;;
  compressed_channels <-
    Py.for_each (process_channel img_array n_components)
                (seq 0 channels) [] ;;
  img_compressed_array <- stack compressed_channels ;;
  let img_compressed_array := astype_uint8 img_compressed_array in
  Py.ret (fromarray img_compressed_array "RGB").

(** Lines 14-74: the body under [try], and the handler that re-raises the
    exception it caught. *)
Definition compress_image (img : pil_image) (quality_percentage : float)
  : Py.result pil_image :=
  Py.try_except
    (compress_array (load_rgb_array img) quality_percentage)
    (fun e => Py.raise e).

(** [channel_reconstructed] of a channel, before the clip: what
    [inverse_transform] returns for it. *)
Definition reconstruction (img_array : ndarray Z) (n_components : Z)
    (channel : nat) (channel_reconstructed : matrix Q) : Prop :=
  exists channel_data pca channel_reduced,
    get_channel 0 img_array channel = inr channel_data
    /\ fit_transform n_components channel_data = inr (pca, channel_reduced)
    /\ inverse_transform pca channel_reduced = inr channel_reconstructed.

(** The transform of a channel raises [e]: in [fit_transform], or in
    [inverse_transform] after a successful fit. *)
Definition transform_raises (img_array : ndarray Z) (n_components : Z)
    (channel : nat) (e : Py.exn) : Prop :=
  exists channel_data,
    get_channel 0 img_array channel = inr channel_data
    /\ (fit_transform n_components channel_data = inl e
        \/ exists pca channel_reduced,
             fit_transform n_components channel_data
               = inr (pca, channel_reduced)
             /\ inverse_transform pca channel_reduced = inl e).

(** The contract of [inverse_transform]: it returns a matrix of the shape
    of the fitted data. *)
Definition keeps_shape : Prop :=
  forall k m pca reduced rec,
    fit_transform k m = inr (pca, reduced) ->
    inverse_transform pca reduced = inr rec ->
    nrows rec = nrows m /\ ncols rec = ncols m.

(** The accuracy of the decomposition at full rank: on a non-empty
    [h x w] matrix of bytes, with [min(h, w)] components, [fit_transform]
    and [inverse_transform] return, and the reconstruction is within one
    unit of the matrix at every position. *)
Definition accurate_at_full_rank (h w : nat) : Prop :=
  forall X : matrix Z,
    nrows X = h -> ncols X = w ->
    Forall (fun v => 0 <= v <= 255) (elems X) ->
    exists pca reduced rec,
      fit_transform (Z.of_nat (Nat.min h w)) X = inr (pca, reduced)
      /\ inverse_transform pca reduced = inr rec
      /\ forall i j, (i < h)%nat -> (j < w)%nat ->
           (Qabs (get 0 rec i j - inject_Z (get 0%Z X i j)) <= 1)%Q.


End CompressImage.

(** A reconstruction as it is laid out in the output: clipped, then cast. *)
Definition quantise (rec : matrix Q) : matrix Z :=
  Matrix (nrows rec) (ncols rec)
    (map (fun idx => uint8_of_float (clip1 (nth idx (elems rec) 0%Q) 0 255))
         (seq 0 (nrows rec * ncols rec))).

(** A matrix holds as many elements as its shape asks for. *)
Definition well_formed {A} (X : matrix A) : Prop :=
  List.length (elems X) = (nrows X * ncols X)%nat.

(** A channel without variance: every row equals the first. *)
Definition zero_variance (X : matrix Z) : Prop :=
  forall i j, (i < nrows X)%nat -> (j < ncols X)%nat ->
    get 0 X i j = get 0 X 0 j.

(** ** A decomposition following the specification *)

Module SpecPCA.

(** The fitted model: the feature means and the [k] directions kept. *)
Record fitted : Type := Fitted { mean_ : list Q; components_ : matrix Q }.

Definition sumQ (n : nat) (f : nat -> Q) : Q :=
  fold_right (fun i acc => (f i + acc)%Q) 0%Q (seq 0 n).

Section Directions.

(** The top-[k] principal directions of a centred matrix come from a
    numerical eigen-solver; here any choice of them: entry [j] of
    direction [t]. *)
Variable principal_directions : matrix Q -> nat -> nat -> nat -> Q.

(** Modelled from the spec: the decomposition of section 4.3 (scikit-learn's
    PCA, which is not part of the sources).  The matrix is centred by
    subtracting the feature means, projected onto the [k] directions, and
    the projection is inverted; a matrix with a zero-sized dimension and a
    [k] outside [0, min(H, W)] are errors. *)
Definition fit (k : Z) (X : matrix Z)
  : Py.result (fitted * matrix Q) :=
  let h := nrows X in
  let w := ncols X in
  if ((h =? 0)%nat || (w =? 0)%nat)%bool
  then Py.raise (Py.ValueError "Found array with 0 sample(s) or feature(s)")
  else if negb ((0 <=? k) && (k <=? Z.of_nat (Nat.min h w)))
  then Py.raise (Py.ValueError
         "n_components must be between 0 and min(n_samples, n_features)")
  else
    let k := Z.to_nat k in
    let mean :=
      map (fun j => (sumQ h (fun i => inject_Z (get 0%Z X i j))
                     / inject_Z (Z.of_nat h))%Q) (seq 0 w) in
    let centred :=
      tabulate h w (fun i j => (inject_Z (get 0%Z X i j) - nth j mean 0)%Q) in
    let components := tabulate k w (principal_directions centred k) in
    let reduced :=
      tabulate h k (fun i t =>
        sumQ w (fun j => (get 0 centred i j * get 0 components t j)%Q)) in
    Py.ret (Fitted mean components, reduced).

(** Modelled from the spec: step 4 of section 4.3, the projection
    inverted: the reduced data times the directions, plus the means. *)
Definition inverse (pca : fitted) (R : matrix Q)
  : Py.result (matrix Q) :=
  Py.ret (tabulate (nrows R) (List.length (mean_ pca)) (fun i j =>
    (sumQ (ncols R) (fun t => get 0 R i t * get 0 (components_ pca) t j)
     + nth j (mean_ pca) 0)%Q)).

(** Modelled from the spec: the Rank-Reduction Transformer of section 4.3
    as an implementation of the scikit-learn interface. *)
Definition sklearn : Sklearn :=
  {| PCA := fitted;
     fit_transform := fit;
     inverse_transform := inverse |}.

End Directions.

End SpecPCA.

(** ** Implementations of the two libraries for the examples *)

Module Reference.

(** Directions along the coordinate axes.  They are orthonormal, and
    they are the principal directions, in order, of a channel whose
    columns are uncorrelated and of non-increasing variance
    ([axis_aligned]); the example images below are of this kind. *)
Definition axis_directions (_ : matrix Q) (_ t j : nat) : Q :=
  if (t =? j)%nat then 1%Q else 0%Q.

Definition sklearn : Sklearn := SpecPCA.sklearn axis_directions.

Definition sumZ (l : list Z) : Z := fold_right Z.add 0 l.

(** The covariance of columns [j1] and [j2], times the square of the
    number of rows. *)
Definition scatter (X : matrix Z) (j1 j2 : nat) : Z :=
  let rows := seq 0 (nrows X) in
  Z.of_nat (nrows X)
  * sumZ (map (fun i => get 0 X i j1 * get 0 X i j2) rows)
  - sumZ (map (fun i => get 0 X i j1) rows)
    * sumZ (map (fun i => get 0 X i j2) rows).

(** The columns are uncorrelated and their variances do not increase
    from left to right. *)
Definition axis_aligned (X : matrix Z) : bool :=
  forallb (fun j1 =>
    forallb (fun j2 =>
      if (j1 =? j2)%nat
      then (j1 =? 0)%nat || (scatter X j1 j1 <=? scatter X (j1 - 1) (j1 - 1))
      else scatter X j1 j2 =? 0) (seq 0 (ncols X))) (seq 0 (ncols X)).

(** [convert] to three bands as Pillow documents it for the modes L, LA
    and RGBA: the luminance is repeated three times, the alpha band is
    dropped.  An image of another mode (a palette, CMYK) needs a table or
    a colour transform that [pil_image] does not hold; its first bands are
    taken, which is not what Pillow computes. *)
Definition convert_bands (img : pil_image) (m : string) : pil_image :=
  let a := pixels img in
  match shape a with
  | [h; w] =>
      PilImage m (NdArray [h; w; 3%nat]
        (flat_map (fun v => [v; v; v]) (data a)))
  | [h; w; c] =>
      PilImage m (NdArray [h; w; 3%nat]
        (flat_map (fun idx =>
                     map (fun b =>
                            nth (idx * c + (if (c <? 3)%nat then 0%nat else b))
                                (data a) 0)
                         (seq 0 3))
                  (seq 0 (h * w))))
  | _ => PilImage m a
  end.

Definition pillow : Pillow := {| convert := convert_bands |}.

Definition compress_image : pil_image -> float -> Py.result pil_image :=
  @compress_image pillow sklearn.

(** A 4 x 4 image with every pixel (128, 64, 200). *)
Definition flat_4x4 : pil_image :=
  PilImage "RGB" (NdArray [4%nat; 4%nat; 3%nat]
    (flat_map (fun _ => [128; 64; 200]) (seq 0 16))).

(** A 3 x 3 image: in the red and the green channel the left column
    varies most, the middle column less and independently of it, the
    right column not at all; the blue channel has three equal rows. *)
Definition bands_3x3 : pil_image :=
  PilImage "RGB" (NdArray [3%nat; 3%nat; 3%nat]
    [0; 250; 30;    10; 0; 0;    7; 255; 90;
     100; 150; 30;  41; 60; 0;   7; 255; 90;
     200; 50; 30;   10; 0; 0;    7; 255; 90]).

(** The same blue channel under other red and green channels. *)
Definition tints_3x3 : pil_image :=
  PilImage "RGB" (NdArray [3%nat; 3%nat; 3%nat]
    [250; 9; 30;    0; 3; 0;     255; 0; 90;
     150; 9; 30;    60; 3; 0;    255; 0; 90;
     50; 9; 30;     0; 3; 0;     255; 0; 90]).

(** What [compress_image] returns for the two at quality 50 on the
    decomposition of the specification, in exact arithmetic.  One
    direction is kept: the left column stays as it is, the middle column
    is replaced by its mean, with the fraction dropped. *)
Definition bands_3x3_q50 : pil_image :=
  PilImage "RGB" (NdArray [3%nat; 3%nat; 3%nat]
    [0; 250; 30;    20; 20; 0;   7; 255; 90;
     100; 150; 30;  20; 20; 0;   7; 255; 90;
     200; 50; 30;   20; 20; 0;   7; 255; 90]).

Definition tints_3x3_q50 : pil_image :=
  PilImage "RGB" (NdArray [3%nat; 3%nat; 3%nat]
    [250; 9; 30;    20; 3; 0;    255; 0; 90;
     150; 9; 30;    20; 3; 0;    255; 0; 90;
     50; 9; 30;     20; 3; 0;    255; 0; 90]).

(** A single greyscale pixel, and one with an alpha band. *)
Definition grey_1x1 : pil_image :=
  PilImage "L" (NdArray [1%nat; 1%nat] [7]).

Definition grey_alpha_1x1 : pil_image :=
  PilImage "LA" (NdArray [1%nat; 1%nat; 2%nat] [7; 255]).

(** A single pixel. *)
Definition pixel_1x1 : pil_image :=
  PilImage "RGB" (NdArray [1%nat; 1%nat; 3%nat] [12; 34; 56]).

(** An image without rows. *)
Definition empty_0x5 : pil_image :=
  PilImage "RGB" (NdArray [0%nat; 5%nat; 3%nat] []).

(** Qualities: 50, 73, 100, and the float nearest to 200/7. *)
Definition q50 : float := Finite 50.
Definition q73 : float := Finite 73.
Definition q100 : float := Finite 100.
Definition q28_57 : float := Finite (2010535547933257 # 70368744177664).

(** The float nearest to ten to the power 308. *)
Definition q1e308 : float :=
  Finite (inject_Z (5010420900022432 * 2 ^ 971)).

End Reference.

(** ** The encoder quality (lines 66 and 88) *)

Definition jpeg_quality (quality_percentage : float) : Py.result Z :=
  truncated <- Py.int_of_float quality_percentage ;;
  Py.ret (Py.max 10 (Py.min 95 truncated)).

(** ** Strings, paths and files *)

Module Os.

(** [s.lower()] on a string of ASCII characters, where it changes the
    letters A to Z and nothing else.  A character outside ASCII is left
    as it is; Python lowers the letters among them too. *)
Definition lower_ascii (a : ascii) : ascii :=
  let n := nat_of_ascii a in
  if ((65 <=? n)%nat && (n <=? 90)%nat)%bool
  then ascii_of_nat (n + 32) else a.

Fixpoint lower (s : string) : string :=
  match s with
  | EmptyString => EmptyString
  | String a s' => String (lower_ascii a) (lower s')
  end.

(** Every character of the string is an ASCII character. *)
Fixpoint is_ascii (s : string) : bool :=
  match s with
  | EmptyString => true
  | String a s' => (nat_of_ascii a <? 128)%nat && is_ascii s'
  end.

(** [s.rfind(c)]: the highest index of [c] in [s], or -1. *)
Fixpoint rfind_from (c : ascii) (s : string) (i last : Z) : Z :=
  match s with
  | EmptyString => last
  | String a s' =>
      rfind_from c s' (i + 1) (if Ascii.eqb a c then i else last)
  end.

Definition rfind (c : ascii) (s : string) : Z := rfind_from c s 0 (-1).

(** [s[:n]] and [s[n:]] *)
Fixpoint take (n : nat) (s : string) : string :=
  match n, s with
  | S n', String a s' => String a (take n' s')
  | _, _ => EmptyString
  end.

Fixpoint drop (n : nat) (s : string) : string :=
  match n, s with
  | S n', String _ s' => drop n' s'
  | _, _ => s
  end.

(** The loop of [splitext] that skips leading dots: is there a character
    other than a dot among the [steps] characters from [filenameIndex]? *)
Fixpoint has_name (p : string) (filenameIndex steps : nat) : bool :=
  match steps with
  | O => false
  | S steps' =>
      match String.get filenameIndex p with
      | Some a =>
          if Ascii.eqb a "."%char
          then has_name p (S filenameIndex) steps' else true
      | None => true
      end
  end.

(** [os.path.splitext(p)] of [posixpath]: the extension starts at the last
    dot of the last path component, leading dots of the component apart. *)
Definition splitext (p : string) : string * string :=
  let sepIndex := rfind "/"%char p in
  let dotIndex := rfind "."%char p in
  if (sepIndex <? dotIndex)
  then
    if has_name p (Z.to_nat (sepIndex + 1))
                  (Z.to_nat (dotIndex - (sepIndex + 1)))
    then (take (Z.to_nat dotIndex) p, drop (Z.to_nat dotIndex) p)
    else (p, EmptyString)
  else (p, EmptyString).

Definition startswith_sep (s : string) : bool :=
  match s with
  | String a _ => Ascii.eqb a "/"%char
  | EmptyString => false
  end.

Fixpoint endswith_sep (s : string) : bool :=
  match s with
  | EmptyString => false
  | String a EmptyString => Ascii.eqb a "/"%char
  | String _ s' => endswith_sep s'
  end.

(** [os.path.join(a, b)] of [posixpath], on two components. *)
Definition join (a b : string) : string :=
  if startswith_sep b then b
  else if ((a =? "")%string || endswith_sep a)%bool then (a ++ b)%string
  else (a ++ "/" ++ b)%string.

(** The files: the content stored under each path. *)
Definition filesystem : Type := string -> option string.

Definition FileNotFoundError (p : string) : Py.exn :=
  Py.Exn "FileNotFoundError" p.

(** [os.path.exists(p)] on a path that can only hold a file. *)
Definition path_exists (fs : filesystem) (p : string) : bool :=
  match fs p with
  | Some _ => true
  | None => false
  end.

(** The directories: whether a path names one. *)
Definition directories : Type := string -> bool.

(** [os.path.exists(p)] *)
Definition exists_ (dirs : directories) (fs : filesystem) (p : string)
  : bool :=
  (dirs p || path_exists fs p)%bool.

(** [os.path.getsize(p)] *)
Definition getsize (fs : filesystem) (p : string) : Py.result Z :=
  match fs p with
  | Some content => Py.ret (Z.of_nat (String.length content))
  | None => Py.raise (FileNotFoundError p)
  end.

(** Writing [content] under [p]. *)
Definition write (fs : filesystem) (p content : string) : filesystem :=
  fun p' => if (p' =? p)%string then Some content else fs p'.

(** [os.remove(p)] *)
Definition remove (fs : filesystem) (p : string)
  : filesystem * Py.result unit :=
  match fs p with
  | Some _ => (fun p' => if (p' =? p)%string then None else fs p', Py.ret tt)
  | None => (fs, Py.raise (FileNotFoundError p))
  end.

End Os.

(** Pillow on files: [Image.open(path)] with the decoding it triggers, and
    [img.save(path, format, quality=q, optimize=o)]. *)
Class ImageFiles : Type :=
  { image_open : Os.filesystem -> string -> Py.result pil_image;
    image_save : Os.filesystem -> pil_image -> string -> string -> Z -> bool
                 -> Os.filesystem * Py.result unit }.

(** [save] writes nowhere but under its path. *)
Definition save_writes_its_path `{ImageFiles} : Prop :=
  forall fs img path format quality optimize p,
    p <> path ->
    fst (image_save fs img path format quality optimize) p = fs p.

(** ** [compress_image] and [compress_image_alternative] on files *)

Section CompressFiles.

Context {pillow : Pillow} {sklearn : Sklearn} {files : ImageFiles}.

(** Lines 5-74 of [compress_image], from the input path to the saved file:
    every exception is caught and re-raised. *)
Definition compress_image_file (fs : Os.filesystem) (image_path : string)
    (quality_percentage : float) (output_path : string)
  : Os.filesystem * Py.result unit :=
  match image_open fs image_path with
  | inl e => (fs, Py.raise e)
  | inr img =>
      match compress_array (load_rgb_array img) quality_percentage with
      | inl e => (fs, Py.raise e)
      | inr img_compressed =>
          match jpeg_quality quality_percentage with
          | inl e => (fs, Py.raise e)
          | inr jpeg_quality =>
              match image_save fs img_compressed output_path "JPEG"
                               jpeg_quality true with
              | (fs', inl e) => (fs', Py.raise e)
              | (fs', inr _) => (fs', Py.ret tt)
              end
          end
      end
  end.


End CompressFiles.

(** ** The service ([app.py]) *)

Module App.

(** An uploaded file: its name and its content. *)
Record file_storage : Type :=
  FileStorage { filename : string; stream : string }.

(** A request: the uploaded files and the form fields, by key. *)
Record request : Type :=
  Request { files : list (string * file_storage);
            form : list (string * string) }.

(** The first value stored under [key]. *)
Fixpoint lookup {A} (key : string) (d : list (string * A)) : option A :=
  match d with
  | [] => None
  | (k, v) :: d' => if (k =? key)%string then Some v else lookup key d'
  end.

(** What a view returns: a JSON error, the JSON of a compression, or a
    file sent as an attachment. *)
Inductive body : Type :=
| Error (error : string)
| Compressed (download_path message : string)
             (original_size compressed_size : Z) (compression_ratio : float)
             (filename : string)
| Attachment (file_path download_name mimetype : string).

Definition response : Type := (body * Z)%type.

Definition UPLOAD_FOLDER : string := "static/uploads".
Definition DOWNLOAD_FOLDER : string := "static/downloads".

Definition allowed_extensions : list string :=
  [".jpg"; ".jpeg"; ".png"; ".webp"; ".bmp"; ".tiff"]%string.

(** [x in s] on strings. *)
Definition member (x : string) (s : list string) : bool :=
  existsb (String.eqb x) s.

(** Flask: [send_file(path, as_attachment=True, download_name=...,
    mimetype=...)], which returns the response or raises. *)
Class Flask : Type :=
  { send_file : Os.directories -> Os.filesystem -> string -> string -> string
                -> Py.result unit }.

(** [send_file] returns for a path that holds a file. *)
Definition sends_files `{Flask} : Prop :=
  forall dirs fs path download_name mimetype content,
    fs path = Some content ->
    send_file dirs fs path download_name mimetype = inr tt.

(** Line 40: the extension the allow-list is asked about. *)
Definition extension_of (file : file_storage) : string :=
  Os.lower (snd (Os.splitext (filename file))).

Section Views.

Context {pillow : Pillow} {sklearn : Sklearn} {image_files : ImageFiles}
        {flask : Flask}.

(** [float(s)] on a string: the float, or a [ValueError]. *)
Variable float_of_str : string -> Py.result float.

(** Line 32: the quality of a request, [float(80)] when the form has
    none. *)
Definition quality_of (req : request) : Py.result float :=
  match lookup "quality" (form req) with
  | Some s => float_of_str s
  | None => Py.float_of_int 80
  end.

(** Lines 84-88: the handler of the inner [try].  The upload path holds
    the file saved at line 55 or nothing, so [os.path.exists] is asked
    about a file. *)
Definition compression_failed (fs : Os.filesystem) (upload_path : string)
  : Os.filesystem * response :=
  let fs := if Os.path_exists fs upload_path
            then fst (Os.remove fs upload_path) else fs in
  (fs, (Error "Failed to compress image. Please try again.", 500)).

(** Line 68: the quotient of two integers, rounded to a float, times
    100, rounded again. *)
Definition compression_ratio (original_size compressed_size : Z)
  : Py.result float :=
  fraction <- Py.int_truediv (original_size - compressed_size)
                             original_size ;;
  Py.float_mul_int fraction 100.

(** Lines 63-81: the body of the inner [try]; an exception leaves it with
    the files as they are at that point. *)
Definition compress_and_report (fs : Os.filesystem)
    (upload_path download_path download_filename : string)
    (quality : float) (original_size : Z)
  : Os.filesystem * Py.result response :=
  match compress_image_file fs upload_path quality download_path with
  | (fs, inl e) => (fs, Py.raise e)
  | (fs, inr _) =>
      match Os.getsize fs download_path with
      | inl e => (fs, Py.raise e)
      | inr compressed_size =>
          match compression_ratio original_size compressed_size with
          | inl e => (fs, Py.raise e)
          | inr compression_ratio =>
              match Os.remove fs upload_path with
              | (fs, inl e) => (fs, Py.raise e)
              | (fs, inr _) =>
                  match Py.round1 compression_ratio with
                  | inl e => (fs, Py.raise e)
                  | inr rounded =>
                      (fs, Py.ret
                        (Compressed ("/download/" ++ download_filename)
                           "Image compressed successfully!"
                           original_size compressed_size
                           rounded download_filename, 200))
                  end
              end
          end
      end
  end.

(** Lines 23-92: [upload_file]; [uuid1] and [uuid2] are the two
    [uuid.uuid4().hex] it draws. *)
Definition upload_file (req : request) (uuid1 uuid2 : string)
    (fs : Os.filesystem) : Os.filesystem * response :=
  match lookup "file" (files req) with
  | None => (fs, (Error "No file part", 400))
  | Some file =>
      match (match lookup "quality" (form req) with
             | Some s => float_of_str s
             | None => Py.float_of_int 80
             end) with
      | inl _ => (fs, (Error "Internal server error", 500))
      | inr quality =>
          if (filename file =? "")%string
          then (fs, (Error "No selected file", 400))
          else
            let file_extension :=
              Os.lower (snd (Os.splitext (filename file))) in
            if negb (member file_extension allowed_extensions)
            then (fs, (Error
              "Invalid file type. Please use JPG, PNG, WebP, BMP, or TIFF.",
              400))
            else if negb (filename file =? "")%string
            then
              let file_extension :=
                if (file_extension =? "")%string
                then ".jpg"%string else file_extension in
              let upload_filename :=
                ("upload_" ++ uuid1 ++ file_extension)%string in
              let download_filename :=
                ("compressed_" ++ uuid2 ++ ".jpg")%string in
              let upload_path := Os.join UPLOAD_FOLDER upload_filename in
              let fs := Os.write fs upload_path (stream file) in
              match Os.getsize fs upload_path with
              | inl _ => (fs, (Error "Internal server error", 500))
              | inr original_size =>
                  let download_path :=
                    Os.join DOWNLOAD_FOLDER download_filename in
                  match compress_and_report fs upload_path download_path
                          download_filename quality original_size with
                  | (fs, inl _) => compression_failed fs upload_path
                  | (fs, inr r) => (fs, r)
                  end
              end
            else (fs, (Error "Internal server error", 500))
      end
  end.

(** Lines 94-114: [download_file]; an exception of [send_file] is
    answered by the handler of lines 112-114. *)
Definition download_file (dirs : Os.directories) (fs : Os.filesystem)
    (filename : string) : response :=
  let file_path := Os.join DOWNLOAD_FOLDER filename in
  if negb (Os.exists_ dirs fs file_path)
  then (Error "File not found", 404)
  else
    match send_file dirs fs file_path ("compressed_" ++ filename)
                    "image/jpeg" with
    | inr _ =>
        (Attachment file_path ("compressed_" ++ filename) "image/jpeg", 200)
    | inl _ => (Error "Error downloading file", 500)
    end.

End Views.

End App.

(** ** Implementations of the file interfaces for the examples *)

Module ReferenceFiles.

(** A raw format standing in for the decoders of Pillow, which are not
    part of the sources: a file of three bytes is a single RGB pixel,
    any other file is not an image. *)
Definition image_open (fs : Os.filesystem) (path : string)
  : Py.result pil_image :=
  match fs path with
  | None => Py.raise (Os.FileNotFoundError path)
  | Some (String r (String g (String b EmptyString))) =>
      Py.ret (PilImage "RGB" (NdArray [1%nat; 1%nat; 3%nat]
                [Z.of_nat (nat_of_ascii r); Z.of_nat (nat_of_ascii g);
                 Z.of_nat (nat_of_ascii b)]))
  | Some _ =>
      Py.raise (Py.Exn "UnidentifiedImageError" "cannot identify image file")
  end.

Definition image_save (fs : Os.filesystem) (img : pil_image)
    (path format : string) (quality : Z) (optimize : bool)
  : Os.filesystem * Py.result unit :=
  (Os.write fs path
     (string_of_list_ascii
        (map (fun v => ascii_of_nat (Z.to_nat v)) (data (pixels img)))),
   Py.ret tt).

Definition image_files : ImageFiles :=
  Build_ImageFiles image_open image_save.

(** The longest prefix of decimal digits: its value, its length, and
    the rest of the string. *)
Fixpoint digits (s : string) (acc : Z) (n : nat) : Z * nat * string :=
  match s with
  | String a s' =>
      let c := nat_of_ascii a in
      if ((48 <=? c)%nat && (c <=? 57)%nat)%bool
      then digits s' (10 * acc + Z.of_nat (c - 48)) (S n)
      else (acc, n, s)
  | EmptyString => (acc, n, s)
  end.

Definition sign_of (s : string) : bool * string :=
  match s with
  | String "-"%char s' => (true, s')
  | String "+"%char s' => (false, s')
  | _ => (false, s)
  end.

(** The exponent part: nothing, or [e] and a signed integer. *)
Definition exponent_of (s : string) : option Z :=
  match s with
  | EmptyString => Some 0
  | String a s' =>
      if (Ascii.eqb a "e" || Ascii.eqb a "E")%bool
      then
        let '(neg, t) := sign_of s' in
        match digits t 0 0 with
        | (_, O, _) => None
        | (e, _, EmptyString) => Some (if neg then - e else e)
        | _ => None
        end
      else None
  end.

(** A decimal literal: digits with an optional fraction and exponent. *)
Definition decimal_of (s : string) : option Q :=
  let '(ip, n1, r1) := digits s 0 0 in
  let '(fp, n2, r2) :=
    match r1 with
    | String "."%char r => digits r 0 0
    | _ => (0, 0%nat, r1)
    end in
  if (n1 + n2 =? 0)%nat then None
  else
    match exponent_of r2 with
    | None => None
    | Some e =>
        let m := ip * 10 ^ Z.of_nat n2 + fp in
        let e := e - Z.of_nat n2 in
        Some (if 0 <=? e then inject_Z (m * 10 ^ e)
              else (inject_Z m / inject_Z (10 ^ (- e)))%Q)
    end.

(** [float(s)] on a signed decimal literal, which is rounded to the
    nearest float, and on [nan], [inf] and [infinity] in any case of
    letters.  Python also accepts blanks around the literal and
    underscores between digits; these are refused here. *)
Definition float_of_str (s : string) : Py.result float :=
  let '(neg, body) := sign_of s in
  let word := Os.lower body in
  if (word =? "nan")%string then Py.ret NaN
  else if ((word =? "inf") || (word =? "infinity"))%string
  then Py.ret (Infinity neg)
  else
    match decimal_of body with
    | Some x => Py.ret (of_Q (if neg then - x else x))
    | None => Py.raise (Py.ValueError "could not convert string to float")
    end.

Definition upload_file :=
  @App.upload_file Reference.pillow Reference.sklearn image_files
    float_of_str.

(** [send_file] on these files: the file is sent; a directory and a
    missing file are errors. *)
Definition send_file (dirs : Os.directories) (fs : Os.filesystem)
    (path download_name mimetype : string) : Py.result unit :=
  match fs path with
  | Some _ => Py.ret tt
  | None =>
      if dirs path then Py.raise (Py.Exn "IsADirectoryError" path)
      else Py.raise (Os.FileNotFoundError path)
  end.

Definition flask : App.Flask := App.Build_Flask send_file.

(** The folders lines 11 and 12 create. *)
Definition folders : Os.directories :=
  fun p => App.member p ["static"; "static/"; "static/uploads";
                         "static/uploads/"; "static/downloads";
                         "static/downloads/"]%string.

Definition download_file := @App.download_file flask.

(** No files at all. *)
Definition no_files : Os.filesystem := fun _ => None.

(** A request that uploads one pixel as [Photo.JPG] at quality 50. *)
Definition photo_request : App.request :=
  App.Request [("file"%string, App.FileStorage "Photo.JPG" "abc")]
              [("quality"%string, "50"%string)].

(** A request that uploads a text file. *)
Definition notes_request : App.request :=
  App.Request [("file"%string, App.FileStorage "notes.txt" "abc")] [].

(** A request whose upload is not an image. *)
Definition broken_request : App.request :=
  App.Request [("file"%string, App.FileStorage "broken.png" "not a pixel")]
              [].

End ReferenceFiles.
(** * Properties *)

(** ** Rounding to binary64 *)

Lemma pow2_pos (e : Z) : (0 < pow2 e)%Q.
Proof. apply Qpower_0_lt. reflexivity. Qed.

Lemma pow2_plus (a b : Z) : (pow2 (a + b) == pow2 a * pow2 b)%Q.
Proof. apply Qpower_plus. discriminate. Qed.

Lemma pow2_le (a b : Z) : a <= b -> (pow2 a <= pow2 b)%Q.
Proof. intros H. apply Qpower_le_compat_l; [exact H | discriminate]. Qed.

Lemma pow2_lt (a b : Z) : a < b -> (pow2 a < pow2 b)%Q.
Proof. intros H. apply Qpower_lt_compat_l; [exact H | reflexivity]. Qed.

Lemma pow2_lt_inv (a b : Z) : (pow2 a < pow2 b)%Q -> a < b.
Proof. intros H. apply (Qpower_lt_compat_l_inv 2); [exact H | reflexivity]. Qed.

Lemma pow2_nonneg_Z (n : Z) : 0 <= n -> (pow2 n == inject_Z (2 ^ n))%Q.
Proof. intros H. unfold pow2. symmetry. now apply (Zpower_Qpower 2). Qed.

Lemma round_int_bounds (y : Q) :
  Qfloor y <= round_int y <= Qfloor y + 1.
Proof.
  unfold round_int.
  destruct (Qle_bool _ (1 # 2)); [| lia].
  destruct (Qle_bool (1 # 2) _); [| lia].
  destruct (Z.even (Qfloor y)); lia.
Qed.

Lemma round_int_monotone (x y : Q) :
  (x <= y)%Q -> round_int x <= round_int y.
Proof.
  intros Hxy. pose proof (Qfloor_resp_le _ _ Hxy) as Hf.
  pose proof (round_int_bounds x) as Bx. pose proof (round_int_bounds y) as By.
  destruct (Z.eq_dec (Qfloor x) (Qfloor y)) as [E | N]; [| lia].
  unfold round_int in *. rewrite <- E in *.
  set (f := Qfloor x) in *.
  destruct (Qle_bool (x - inject_Z f) (1 # 2)) eqn:X1;
  destruct (Qle_bool (1 # 2) (x - inject_Z f)) eqn:X2;
  destruct (Qle_bool (y - inject_Z f) (1 # 2)) eqn:Y1;
  destruct (Qle_bool (1 # 2) (y - inject_Z f)) eqn:Y2;
  try (destruct (Z.even f)); try lia; exfalso;
  repeat match goal with
  | H : Qle_bool _ _ = true |- _ => apply Qle_bool_iff in H
  | H : Qle_bool ?a ?b = false |- _ =>
      assert (b < a)%Q
        by (apply Qnot_le_lt; intros C; apply Qle_bool_iff in C; congruence);
      clear H
  end; lra.
Qed.

Lemma round_int_inject (z : Z) (y : Q) :
  (y == inject_Z z)%Q -> round_int y = z.
Proof.
  intros E. unfold round_int.
  assert (Ef : Qfloor y = z) by (rewrite (Qfloor_comp _ _ E); apply Qfloor_Z).
  rewrite Ef.
  assert (E1 : Qle_bool (y - inject_Z z) (1 # 2) = true)
    by (apply Qle_bool_iff; lra).
  rewrite E1.
  destruct (Qle_bool (1 # 2) (y - inject_Z z)) eqn:E2; [| reflexivity].
  apply Qle_bool_iff in E2. lra.
Qed.

Lemma ilog2_spec (x : Q) :
  (0 < x)%Q -> (pow2 (ilog2 x) <= x)%Q /\ (x < pow2 (ilog2 x + 1))%Q.
Proof.
  intros Hx. destruct x as [n d]. unfold ilog2. simpl Qnum. simpl Qden.
  assert (Hn : 0 < n) by (unfold Qlt in Hx; simpl in Hx; lia).
  set (a := Z.log2 n). set (b := Z.log2 (Zpos d)).
  assert (Ha : 0 <= a) by apply Z.log2_nonneg.
  assert (Hb : 0 <= b) by apply Z.log2_nonneg.
  destruct (Z.log2_spec n Hn) as [Ha1 Ha2]. fold a in Ha1, Ha2.
  destruct (Z.log2_spec (Zpos d) ltac:(lia)) as [Hb1 Hb2]. fold b in Hb1, Hb2.
  assert (Hhi : (n # d < pow2 (a - b + 1))%Q).
  { replace (a - b + 1) with ((a + 1) + - b) by lia.
    rewrite pow2_plus. unfold pow2 at 2. rewrite Qpower_opp.
    fold (pow2 b). rewrite !pow2_nonneg_Z by lia.
    apply Qlt_shift_div_l.
    - change 0%Q with (inject_Z 0). rewrite <- Zlt_Qlt. lia.
    - unfold Qlt. simpl. rewrite Z.mul_1_r.
      replace (Z.succ a) with (a + 1) in Ha2 by lia. nia. }
  assert (Hlo : (pow2 (a - b - 1) < n # d)%Q).
  { replace (a - b - 1) with (a + - (b + 1)) by lia.
    rewrite pow2_plus. unfold pow2 at 2. rewrite Qpower_opp.
    fold (pow2 (b + 1)). rewrite !pow2_nonneg_Z by lia.
    apply Qlt_shift_div_r.
    - change 0%Q with (inject_Z 0). rewrite <- Zlt_Qlt. lia.
    - unfold Qlt. simpl. rewrite Z.mul_1_r.
      replace (Z.succ b) with (b + 1) in Hb2 by lia. nia. }
  destruct (Qle_bool (pow2 (a - b)) (n # d)) eqn:E.
  - apply Qle_bool_iff in E. split; assumption.
  - assert (Hlt : (n # d < pow2 (a - b))%Q).
    { apply Qnot_le_lt. intros C. apply Qle_bool_iff in C. congruence. }
    replace (a - b - 1 + 1) with (a - b) by lia.
    split; [now apply Qlt_le_weak | exact Hlt].
Qed.

Lemma ilog2_monotone (x y : Q) :
  (0 < x)%Q -> (x <= y)%Q -> ilog2 x <= ilog2 y.
Proof.
  intros Hx Hxy.
  destruct (ilog2_spec x Hx) as [Lx _].
  destruct (ilog2_spec y (Qlt_le_trans _ _ _ Hx Hxy)) as [_ Uy].
  assert (H : (pow2 (ilog2 x) < pow2 (ilog2 y + 1))%Q) by lra.
  apply pow2_lt_inv in H. lia.
Qed.

Lemma ilog2_unique (x : Q) (e : Z) :
  (pow2 e <= x)%Q -> (x < pow2 (e + 1))%Q -> ilog2 x = e.
Proof.
  intros L U.
  assert (Hx : (0 < x)%Q) by (pose proof (pow2_pos e); lra).
  destruct (ilog2_spec x Hx) as [L' U'].
  assert (H1 : (pow2 e < pow2 (ilog2 x + 1))%Q) by lra.
  assert (H2 : (pow2 (ilog2 x) < pow2 (e + 1))%Q) by lra.
  apply pow2_lt_inv in H1, H2. lia.
Qed.

Lemma ulp_exponent_monotone (x y : Q) :
  (0 < x)%Q -> (x <= y)%Q -> ulp_exponent x <= ulp_exponent y.
Proof.
  intros Hx Hxy. unfold ulp_exponent.
  pose proof (ilog2_monotone x y Hx Hxy). lia.
Qed.

(** The scaled significand is below [2 ** 53], and at least [2 ** 52]
    when the number is not subnormal. *)
Lemma significand_upper (x : Q) :
  (0 < x)%Q -> (x / pow2 (ulp_exponent x) < inject_Z (2 ^ 53))%Q.
Proof.
  intros Hx. destruct (ilog2_spec x Hx) as [_ U].
  pose proof (pow2_pos (ulp_exponent x)) as Hp.
  apply Qlt_shift_div_r; [exact Hp |].
  rewrite <- (pow2_nonneg_Z 53) by lia. rewrite <- pow2_plus.
  apply Qlt_le_trans with (pow2 (ilog2 x + 1)); [exact U |].
  apply pow2_le. unfold ulp_exponent. lia.
Qed.

Lemma significand_lower (x : Q) :
  (0 < x)%Q -> -1074 < ulp_exponent x ->
  (inject_Z (2 ^ 52) <= x / pow2 (ulp_exponent x))%Q.
Proof.
  intros Hx He. destruct (ilog2_spec x Hx) as [L _].
  pose proof (pow2_pos (ulp_exponent x)) as Hp.
  apply Qle_shift_div_l; [exact Hp |].
  rewrite <- (pow2_nonneg_Z 52) by lia. rewrite <- pow2_plus.
  apply Qle_trans with (pow2 (ilog2 x)); [| exact L].
  apply pow2_le. unfold ulp_exponent in *. lia.
Qed.

Lemma round_pos_nonneg (x : Q) : (0 < x)%Q -> (0 <= round_pos x)%Q.
Proof.
  intros Hx. unfold round_pos.
  pose proof (pow2_pos (ulp_exponent x)) as Hp.
  apply Qmult_le_0_compat; [| lra].
  change 0%Q with (inject_Z 0). rewrite <- Zle_Qle.
  pose proof (round_int_bounds (x / pow2 (ulp_exponent x))) as B.
  assert (0 <= Qfloor (x / pow2 (ulp_exponent x))).
  { change 0 with (Qfloor 0). apply Qfloor_resp_le.
    apply Qle_shift_div_l; [exact Hp | lra]. }
  lia.
Qed.

Lemma round_pos_monotone (x y : Q) :
  (0 < x)%Q -> (x <= y)%Q -> (round_pos x <= round_pos y)%Q.
Proof.
  intros Hx Hxy. assert (Hy : (0 < y)%Q) by lra.
  pose proof (ulp_exponent_monotone x y Hx Hxy) as He.
  unfold round_pos.
  set (ex := ulp_exponent x) in *. set (ey := ulp_exponent y) in *.
  pose proof (pow2_pos ex) as Hpx. pose proof (pow2_pos ey) as Hpy.
  destruct (Z.eq_dec ex ey) as [E | N].
  - rewrite <- E. apply Qmult_le_compat_r; [| lra].
    rewrite <- Zle_Qle. apply round_int_monotone.
    apply Qmult_le_compat_r; [exact Hxy |].
    apply Qlt_le_weak, Qinv_lt_0_compat, Hpx.
  - assert (Hlt : ex < ey) by lia.
    apply Qle_trans with (inject_Z (2 ^ 53) * pow2 ex)%Q.
    + apply Qmult_le_compat_r; [| lra]. rewrite <- Zle_Qle.
      pose proof (round_int_monotone _ _
                    (Qlt_le_weak _ _ (significand_upper x Hx))) as H.
      fold ex in H. rewrite (round_int_inject (2 ^ 53) (inject_Z (2 ^ 53))) in H by reflexivity.
      exact H.
    + apply Qle_trans with (inject_Z (2 ^ 52) * pow2 ey)%Q.
      * rewrite <- (pow2_nonneg_Z 53), <- (pow2_nonneg_Z 52) by lia.
        rewrite <- !pow2_plus. apply pow2_le. lia.
      * apply Qmult_le_compat_r; [| lra]. rewrite <- Zle_Qle.
        assert (Hsub : -1074 < ulp_exponent y).
        { fold ey. unfold ex, ulp_exponent in Hlt. unfold ey. lia. }
        pose proof (round_int_monotone _ _ (significand_lower y Hy Hsub)) as H.
        fold ey in H. rewrite (round_int_inject (2 ^ 52) (inject_Z (2 ^ 52))) in H by reflexivity.
        exact H.
Qed.

Lemma round_cases (x : Q) :
  ((x == 0)%Q /\ round x = 0%Q)
  \/ ((0 < x)%Q /\ round x = round_pos x)
  \/ ((x < 0)%Q /\ round x = (- round_pos (- x))%Q).
Proof.
  unfold round. destruct (x ?= 0)%Q eqn:E.
  - left. split; [now apply Qeq_alt | reflexivity].
  - right. right. split; [now apply Qlt_alt | reflexivity].
  - right. left. split; [now apply Qgt_alt | reflexivity].
Qed.

(** Rounding is monotone. *)
Lemma round_monotone (x y : Q) : (x <= y)%Q -> (round x <= round y)%Q.
Proof.
  intros Hxy.
  destruct (round_cases x) as [[Hx ->] | [[Hx ->] | [Hx ->]]];
  destruct (round_cases y) as [[Hy ->] | [[Hy ->] | [Hy ->]]];
  try lra.
  - apply round_pos_nonneg. exact Hy.
  - now apply round_pos_monotone.
  - pose proof (round_pos_nonneg (- x) ltac:(lra)). lra.
  - pose proof (round_pos_nonneg (- x) ltac:(lra)).
    pose proof (round_pos_nonneg y Hy). lra.
  - pose proof (round_pos_monotone (- y) (- x) ltac:(lra) ltac:(lra)). lra.
Qed.

Lemma round_comp (x y : Q) : (x == y)%Q -> (round x == round y)%Q.
Proof.
  intros E. apply Qle_antisym; apply round_monotone; lra.
Qed.

Lemma round_zero (x : Q) : (x == 0)%Q -> round x = 0%Q.
Proof.
  intros E. destruct (round_cases x) as [[_ H] | [[H _] | [H _]]];
    [exact H | lra | lra].
Qed.

Lemma round_sign (x : Q) :
  ((x <= 0)%Q -> (round x <= 0)%Q) /\ ((0 <= x)%Q -> (0 <= round x)%Q).
Proof.
  split; intros H.
  - pose proof (round_monotone x 0 H) as M. now rewrite (round_zero 0) in M.
  - pose proof (round_monotone 0 x H) as M. now rewrite (round_zero 0) in M.
Qed.

(** An integer of at most 53 bits is a binary64 number. *)
Lemma round_pos_integer (z : Z) :
  0 < z < 2 ^ 53 -> (round_pos (inject_Z z) == inject_Z z)%Q.
Proof.
  intros Hz. unfold round_pos.
  assert (Hx : (0 < inject_Z z)%Q).
  { change 0%Q with (inject_Z 0). rewrite <- Zlt_Qlt. lia. }
  set (e := ulp_exponent (inject_Z z)).
  assert (He : e <= 0).
  { unfold e, ulp_exponent.
    destruct (ilog2_spec (inject_Z z) Hx) as [L _].
    assert (H : (pow2 (ilog2 (inject_Z z)) < pow2 53)%Q).
    { apply Qle_lt_trans with (inject_Z z); [exact L |].
      rewrite pow2_nonneg_Z by lia. rewrite <- Zlt_Qlt. lia. }
    apply pow2_lt_inv in H. lia. }
  pose proof (pow2_pos e) as Hp.
  assert (E : (inject_Z z / pow2 e == inject_Z (z * 2 ^ (- e)))%Q).
  { rewrite inject_Z_mult. rewrite <- (pow2_nonneg_Z (- e)) by lia.
    unfold pow2. rewrite Qpower_opp. field.
    intros C. fold (pow2 e) in C. lra. }
  rewrite (round_int_inject _ _ E). rewrite <- E. field.
  intros C. lra.
Qed.

Lemma round_integer (z : Z) :
  - 2 ^ 53 < z < 2 ^ 53 -> (round (inject_Z z) == inject_Z z)%Q.
Proof.
  intros Hz.
  destruct (round_cases (inject_Z z)) as [[Hx ->] | [[Hx ->] | [Hx ->]]].
  - now symmetry.
  - apply round_pos_integer. change 0%Q with (inject_Z 0) in Hx.
    rewrite <- Zlt_Qlt in Hx. lia.
  - change 0%Q with (inject_Z 0) in Hx. rewrite <- Zlt_Qlt in Hx.
    rewrite <- inject_Z_opp. rewrite round_pos_integer by lia.
    rewrite inject_Z_opp. ring.
Qed.

Lemma round_max_float : (round max_float == max_float)%Q.
Proof. vm_compute. reflexivity. Qed.

Lemma round_min_float : (round (- max_float) == - max_float)%Q.
Proof. vm_compute. reflexivity. Qed.

(** A number within the finite range rounds to one within it. *)
Lemma round_in_range (x : Q) :
  (Qabs x <= max_float)%Q -> (Qabs (round x) <= max_float)%Q.
Proof.
  intros H. apply Qabs_Qle_condition in H as [L U].
  apply Qabs_Qle_condition. split.
  - rewrite <- round_min_float. now apply round_monotone.
  - rewrite <- round_max_float. now apply round_monotone.
Qed.

(** ** Truncation and floor *)

Lemma int_nonneg (x : Q) : (0 <= x)%Q -> Py.int x = Qfloor x.
Proof.
  destruct x as [n d]. unfold Qle, Py.int, Qfloor. simpl. intros Hn.
  apply Z.quot_div_nonneg; lia.
Qed.

Lemma int_neg (x : Q) : (x < 0)%Q -> Py.int x <= 0 /\ Qfloor x < 0.
Proof.
  destruct x as [n d]. unfold Qlt, Py.int, Qfloor. simpl. intros Hn.
  split.
  - assert (H : 0 <= Z.quot (- n) (Zpos d)) by (apply Z.quot_pos; lia).
    rewrite Z.quot_opp_l in H by lia. lia.
  - apply Z.div_lt_upper_bound; lia.
Qed.

Lemma int_inject (z : Z) : Py.int (inject_Z z) = z.
Proof. unfold Py.int. simpl. apply Z.quot_1_r. Qed.

Lemma int_comp (x y : Q) : (x == y)%Q -> Py.int x = Py.int y.
Proof.
  intros E. destruct (Qlt_le_dec x 0) as [Hx | Hx].
  - assert (Hy : (y < 0)%Q) by (rewrite <- E; exact Hx).
    destruct x as [n d], y as [m e].
    unfold Qeq, Qlt, Py.int in *. simpl in *.
    assert (Hq : Z.quot (- n) (Zpos d) = Z.quot (- m) (Zpos e)).
    { rewrite !Z.quot_div_nonneg by lia.
      apply (Qfloor_comp ((- n) # d) ((- m) # e)).
      unfold Qeq. simpl. lia. }
    rewrite !Z.quot_opp_l in Hq by lia. lia.
  - assert (Hy : (0 <= y)%Q) by (rewrite <- E; exact Hx).
    rewrite !int_nonneg by assumption. now apply Qfloor_comp.
Qed.

(** ** Floats *)

Lemma int_floor_comp (x y : Q) : (x == y)%Q -> Qfloor x = Qfloor y.
Proof. apply Qfloor_comp. Qed.

(** The rounding on some numbers whose binary64 neighbours are known:
    one tenth; an integer of 54 bits, which is a tie; half the smallest
    subnormal number, a tie that goes to zero, and three halves of it,
    which goes up; the tie above the largest finite number, which leaves
    the range. *)
Example round_examples :
  (Float64.round (1 # 10) == 3602879701896397 # 36028797018963968)%Q
  /\ (Float64.round (inject_Z (2 ^ 53 + 1)) == inject_Z (2 ^ 53))%Q
  /\ (Float64.round (inject_Z (2 ^ 53 + 3)) == inject_Z (2 ^ 53 + 4))%Q
  /\ (Float64.round (pow2 (-1075)) == 0)%Q
  /\ (Float64.round (3 * pow2 (-1075)) == pow2 (-1073))%Q
  /\ of_Q (max_float + pow2 970) = Infinity false
  /\ of_Q (- (max_float + pow2 969)) = Finite (Float64.round (- max_float)).
Proof.
  repeat split; vm_compute; reflexivity.
Qed.

Lemma max_float_bound : (inject_Z (2 ^ 53) <= max_float)%Q.
Proof. vm_compute. discriminate. Qed.

Lemma of_Q_cases (x : Q) :
  ((Qabs (Float64.round x) <= max_float)%Q
   /\ of_Q x = Finite (Float64.round x))
  \/ (~ (Qabs (Float64.round x) <= max_float)%Q
      /\ of_Q x = Infinity (is_negative x)).
Proof.
  unfold of_Q. destruct (Qle_bool (Qabs (Float64.round x)) max_float) eqn:E.
  - left. split; [now apply Qle_bool_iff | reflexivity].
  - right. split; [| reflexivity].
    intros C. apply Qle_bool_iff in C. congruence.
Qed.

Lemma of_Q_finite (x : Q) :
  (Qabs x <= max_float)%Q -> of_Q x = Finite (Float64.round x).
Proof.
  intros H. destruct (of_Q_cases x) as [[_ E] | [C _]]; [exact E |].
  exfalso. apply C. now apply round_in_range.
Qed.

Lemma of_Q_not_NaN (x : Q) : of_Q x <> NaN.
Proof. destruct (of_Q_cases x) as [[_ ->] | [_ ->]]; discriminate. Qed.

Lemma integer_in_range (z : Z) :
  - 2 ^ 53 < z < 2 ^ 53 -> (Qabs (inject_Z z) <= max_float)%Q.
Proof.
  intros Hz. apply Qle_trans with (inject_Z (2 ^ 53)); [| apply max_float_bound].
  apply Qabs_Qle_condition. rewrite <- inject_Z_opp, <- !Zle_Qle. lia.
Qed.

(** An integer of at most 53 bits converts to itself. *)
Lemma float_of_int_exact (z : Z) :
  - 2 ^ 53 < z < 2 ^ 53 ->
  Py.float_of_int z = inr (Finite (Float64.round (inject_Z z)))
  /\ (Float64.round (inject_Z z) == inject_Z z)%Q.
Proof.
  intros Hz. unfold Py.float_of_int.
  rewrite (of_Q_finite _ (integer_in_range z Hz)).
  split; [reflexivity | now apply round_integer].
Qed.

Lemma float_of_int_inr (z : Z) (x : float) :
  Py.float_of_int z = inr x -> x = Finite (Float64.round (inject_Z z)).
Proof.
  unfold Py.float_of_int.
  destruct (of_Q_cases (inject_Z z)) as [[_ ->] | [_ ->]];
    [| discriminate].
  intros H. now injection H as <-.
Qed.

Lemma round_100 : (Float64.round 100 == 100)%Q.
Proof. apply (round_integer 100). lia. Qed.

Lemma round_100_nonzero : Qeq_bool (Float64.round 100) 0 = false.
Proof.
  destruct (Qeq_bool (Float64.round 100) 0) eqn:E; [| reflexivity].
  apply Qeq_bool_eq in E. rewrite round_100 in E. discriminate E.
Qed.

Lemma float_of_int_100 :
  Py.float_of_int 100 = inr (Finite (Float64.round 100)).
Proof. apply (float_of_int_exact 100). lia. Qed.

Lemma is_negative_spec (x : Q) :
  if is_negative x then (x < 0)%Q else (0 <= x)%Q.
Proof.
  unfold is_negative. destruct (Qle_bool 0 x) eqn:E; simpl.
  - now apply Qle_bool_iff.
  - apply Qnot_le_lt. intros C. apply Qle_bool_iff in C. congruence.
Qed.

(** ** Truncation is monotone *)

Lemma int_monotone (x y : Q) : (x <= y)%Q -> Py.int x <= Py.int y.
Proof.
  intros Hxy. destruct (Qlt_le_dec x 0) as [Hx | Hx];
    destruct (Qlt_le_dec y 0) as [Hy | Hy].
  - destruct x as [n d], y as [m e].
    unfold Qle, Qlt, Py.int in *. simpl in *.
    assert (H : Z.quot (- m) (Zpos e) <= Z.quot (- n) (Zpos d)).
    { rewrite !Z.quot_div_nonneg by lia.
      apply (Qfloor_resp_le ((- m) # e) ((- n) # d)).
      unfold Qle. simpl. lia. }
    rewrite !Z.quot_opp_l in H by lia. lia.
  - destruct (int_neg x Hx) as [H _]. rewrite (int_nonneg y Hy).
    assert (0 <= Qfloor y) by (change 0 with (Qfloor 0); now apply Qfloor_resp_le).
    lia.
  - exfalso. apply (Qlt_irrefl 0). apply Qle_lt_trans with x; [exact Hx |].
    now apply Qle_lt_trans with y.
  - rewrite !int_nonneg by assumption. now apply Qfloor_resp_le.
Qed.

(** ** The selector *)

Lemma Qabs_div_100 (p : Q) : (Qabs (p / 100) <= Qabs p)%Q.
Proof.
  unfold Qdiv. change (/ 100)%Q with (1 # 100)%Q. rewrite Qabs_Qmult.
  change (Qabs (1 # 100)) with (1 # 100)%Q.
  pose proof (Qabs_nonneg p). lra.
Qed.

Lemma scaled_quality_small (m : Z) (v : Q) :
  - 2 ^ 53 < m < 2 ^ 53 ->
  (scaled_quality m v
   == Float64.round (Float64.round (inject_Z m * v) / 100))%Q.
Proof.
  intros Hm. unfold scaled_quality. apply round_comp.
  rewrite round_100. apply Qmult_comp; [| reflexivity].
  apply round_comp. now rewrite (round_integer m Hm).
Qed.

(** What a count that is returned has been computed from. *)
Lemma n_components_inr (h w : Z) (q : float) (k : Z) :
  n_components h w q = inr k ->
  exists v,
    q = Finite v
    /\ k = Z.min (Z.max 1 (Py.int (scaled_quality (Z.min h w) v)))
                 (Z.min h w).
Proof.
  unfold n_components, Py.int_mul_float, Py.float_div_int, Py.bind, Py.ret,
    Py.min, Py.max.
  set (m := Z.min h w).
  destruct (Py.float_of_int m) as [e | m'] eqn:Em; [discriminate |].
  apply float_of_int_inr in Em. subst m'.
  rewrite float_of_int_100. unfold Py.float_truediv.
  rewrite round_100_nonzero. unfold Py.ret.
  destruct q as [v | s | ]; simpl mul.
  - destruct (of_Q_cases (Float64.round (inject_Z m) * v))
      as [[_ ->] | [_ ->]]; simpl div.
    + destruct (of_Q_cases
                  (Float64.round (Float64.round (inject_Z m) * v)
                   / Float64.round 100)) as [[_ ->] | [_ ->]];
        simpl; [| discriminate].
      intros H. injection H as <-. exists v. split; reflexivity.
    + discriminate.
  - destruct (Qeq_bool (Float64.round (inject_Z m)) 0); discriminate.
  - discriminate.
Qed.

(** A count is returned when the product is within the range. *)
Lemma n_components_returns (h w : Z) (v : Q) :
  - 2 ^ 53 < Z.min h w < 2 ^ 53 ->
  (Qabs (inject_Z (Z.min h w) * v) <= max_float)%Q ->
  n_components h w (Finite v)
  = inr (Z.min (Z.max 1 (Py.int (scaled_quality (Z.min h w) v)))
               (Z.min h w)).
Proof.
  intros Hm Hv.
  unfold n_components, Py.int_mul_float, Py.float_div_int, Py.bind, Py.ret,
    Py.min, Py.max.
  set (m := Z.min h w) in *.
  destruct (float_of_int_exact m Hm) as [-> Er].
  rewrite float_of_int_100. unfold Py.float_truediv.
  rewrite round_100_nonzero. unfold Py.ret. simpl mul.
  assert (Hp : (Qabs (Float64.round (inject_Z m) * v) <= max_float)%Q)
    by (now rewrite Er).
  rewrite (of_Q_finite _ Hp). simpl div.
  set (p := Float64.round (Float64.round (inject_Z m) * v)).
  assert (Hp' : (Qabs p <= max_float)%Q) by (now apply round_in_range).
  assert (Hd : (Qabs (p / Float64.round 100) <= max_float)%Q).
  { rewrite round_100. apply Qle_trans with (Qabs p); [| exact Hp'].
    apply Qabs_div_100. }
  rewrite (of_Q_finite _ Hd). reflexivity.
Qed.
Lemma n_components_range (h w : Z) (q : float) (k : Z) :
  1 <= h -> 1 <= w -> n_components h w q = inr k -> 1 <= k <= Z.min h w.
Proof.
  intros Hh Hw H. destruct (n_components_inr _ _ _ _ H) as (v & _ & ->). lia.
Qed.

Lemma n_components_zero_sized (h w : Z) (q : float) (k : Z) :
  0 <= h -> 0 <= w -> n_components h w q = inr k ->
  (k = 0 <-> h = 0 \/ w = 0).
Proof.
  intros Hh Hw H. destruct (n_components_inr _ _ _ _ H) as (v & _ & ->). lia.
Qed.

Lemma clamp_int_floor (m : Z) (x : Q) :
  1 <= m -> Z.min (Z.max 1 (Py.int x)) m = clamp 1 m (Qfloor x).
Proof.
  intros Hm. unfold clamp. destruct (Qlt_le_dec x 0) as [Hx | Hx].
  - destruct (int_neg x Hx). lia.
  - rewrite (int_nonneg x Hx). lia.
Qed.

Lemma scaled_nonpos (m : Z) (v : Q) :
  0 <= m -> (v <= 0)%Q ->
  (Float64.round (Float64.round (inject_Z m * v) / 100) <= 0)%Q.
Proof.
  intros Hm Hv.
  assert (H0 : (0 <= inject_Z m)%Q)
    by (change 0%Q with (inject_Z 0); rewrite <- Zle_Qle; exact Hm).
  assert (H1 : (inject_Z m * v <= 0)%Q) by nra.
  apply round_sign in H1. apply round_sign.
  unfold Qdiv. change (/ 100)%Q with (1 # 100)%Q. lra.
Qed.

Lemma scaled_full (m : Z) (v : Q) :
  0 <= 100 * m < 2 ^ 53 -> (100 <= v)%Q ->
  (inject_Z m <= Float64.round (Float64.round (inject_Z m * v) / 100))%Q.
Proof.
  intros Hm Hv.
  assert (H0 : (0 <= inject_Z m)%Q)
    by (change 0%Q with (inject_Z 0); rewrite <- Zle_Qle; lia).
  assert (H1 : (inject_Z (100 * m) <= inject_Z m * v)%Q)
    by (rewrite inject_Z_mult; change (inject_Z 100) with 100%Q; nra).
  apply round_monotone in H1.
  rewrite (round_integer (100 * m)) in H1 by lia.
  assert (H2 : (inject_Z m <= Float64.round (inject_Z m * v) / 100)%Q).
  { rewrite inject_Z_mult in H1. change (inject_Z 100) with 100%Q in H1.
    unfold Qdiv. change (/ 100)%Q with (1 # 100)%Q. lra. }
  apply round_monotone in H2.
  now rewrite (round_integer m) in H2 by lia.
Qed.

(** The count in terms of the rounded quotient, for dimensions of at most
    53 bits and a product within the range. *)
Lemma n_components_clamp (h w : Z) (v : Q) :
  1 <= h -> 1 <= w -> Z.min h w < 2 ^ 53 ->
  (Qabs (inject_Z (Z.min h w) * v) <= max_float)%Q ->
  n_components h w (Finite v)
  = inr (clamp 1 (Z.min h w)
           (Qfloor (Float64.round
                      (Float64.round (inject_Z (Z.min h w) * v) / 100)))).
Proof.
  intros Hh Hw Hm Hv.
  rewrite n_components_returns by (try assumption; lia).
  rewrite clamp_int_floor by lia. unfold clamp.
  rewrite (int_floor_comp _ _ (scaled_quality_small (Z.min h w) v ltac:(lia))).
  reflexivity.
Qed.

(** A quality from 1 to 100 cannot overflow the product. *)
Lemma percentage_in_range (m : Z) (v : Q) :
  0 <= 100 * m < 2 ^ 53 -> (1 <= v)%Q -> (v <= 100)%Q ->
  (Qabs (inject_Z m * v) <= max_float)%Q.
Proof.
  intros Hm H1 H100.
  assert (H0 : (0 <= inject_Z m)%Q)
    by (change 0%Q with (inject_Z 0); rewrite <- Zle_Qle; lia).
  assert (Hp : (0 <= inject_Z m * v)%Q) by nra.
  rewrite (Qabs_pos _ Hp).
  apply Qle_trans with (inject_Z (100 * m)).
  - rewrite inject_Z_mult. change (inject_Z 100) with 100%Q. nra.
  - apply Qle_trans with (inject_Z (2 ^ 53)); [| apply max_float_bound].
    rewrite <- Zle_Qle. lia.
Qed.

(** C1, as the code computes it.  For dimensions [H >= 1], [W >= 1]
    (below [2 ** 53 / 100]) every count the selector returns lies in
    [1, min(H, W)].  It returns one for every finite quality [q] whose
    product with [min(H, W)] is within the range of the floats, and that
    count is the clamp to [1, min(H, W)] of the floor of the float
    quotient: [min(H, W) * q] rounded to a float, divided by 100, rounded
    again.  A quality [q <= 0] gives 1, a quality [q >= 100] gives
    [min(H, W)], and every quality from 1 to 100 gives a count in
    [1, min(H, W)]. *)
Theorem selector_clamps (H W : Z) :
  1 <= H -> 1 <= W -> 100 * Z.min H W < 2 ^ 53 ->
  let m := max_components H W in
  (forall q k, n_components H W q = inr k -> 1 <= k <= m)
  /\ (forall q, (Qabs (inject_Z m * q) <= max_float)%Q ->
        n_components H W (Finite q)
        = inr (clamp 1 m
                 (Qfloor (Float64.round
                            (Float64.round (inject_Z m * q) / 100))))
        /\ ((q <= 0)%Q -> n_components H W (Finite q) = inr 1)
        /\ ((100 <= q)%Q -> n_components H W (Finite q) = inr m))
  /\ (forall q, (1 <= q)%Q -> (q <= 100)%Q ->
        exists k, n_components H W (Finite q) = inr k /\ 1 <= k <= m).
Proof.
  intros HH HW Hm m. unfold max_components, Py.min in m.
  assert (Hm1 : 1 <= m) by (unfold m; lia).
  split; [| split].
  - intros q k Hk. now apply (n_components_range H W q).
  - intros q Hq.
    pose proof (n_components_clamp H W q HH HW ltac:(lia) Hq) as E.
    fold m in E. split; [exact E |]. split; intros Hv; rewrite E; f_equal.
    + pose proof (Qfloor_resp_le _ _ (scaled_nonpos m q ltac:(lia) Hv)) as Hf.
      change (Qfloor 0) with 0 in Hf. unfold clamp. lia.
    + pose proof (Qfloor_resp_le _ _
                    (scaled_full m q ltac:(unfold m; lia) Hv)) as Hf.
      rewrite Qfloor_Z in Hf. unfold clamp. lia.
  - intros q H1 H100.
    assert (Hq : (Qabs (inject_Z m * q) <= max_float)%Q)
      by (apply percentage_in_range; [unfold m; lia | assumption ..]).
    pose proof (n_components_clamp H W q HH HW ltac:(lia) Hq) as E.
    eexists. split; [exact E |]. fold m. unfold clamp. lia.
Qed.

Lemma selector_clamps_witness :
  n_components 10 10 (Finite 0) = inr 1
  /\ n_components 4 6 (Finite 50) = inr 2
  /\ n_components 4 6 (Finite 250) = inr 4.
Proof.
  split; [| split].
  - destruct (selector_clamps 10 10 ltac:(lia) ltac:(lia) ltac:(simpl; lia))
      as (_ & Hq & _).
    apply (Hq 0%Q); [vm_compute; discriminate | discriminate].
  - destruct (selector_clamps 4 6 ltac:(lia) ltac:(lia) ltac:(simpl; lia))
      as (_ & Hq & _).
    destruct (Hq 50%Q) as (E & _); [vm_compute; discriminate |].
    rewrite E. vm_compute. reflexivity.
  - destruct (selector_clamps 4 6 ltac:(lia) ltac:(lia) ltac:(simpl; lia))
      as (_ & Hq & _).
    apply (Hq 250%Q); [vm_compute; discriminate | discriminate].
Defined.

(** Counterexample to C1 as stated: on a 7 x 7 image at the quality
    28.57142857142857 (a float, the nearest to 200/7) the product
    [7 * q] rounds up to 200.0, so the code keeps 2 components, while the
    clamp of the floor of the exact [7 * q / 100] is 1. *)
Lemma selector_rounds_the_product :
  (Float64.round (2010535547933257 # 70368744177664)
   == 2010535547933257 # 70368744177664)%Q
  /\ n_components 7 7 Reference.q28_57 = inr 2
  /\ clamp 1 (max_components 7 7)
       (Qfloor (inject_Z (max_components 7 7)
                * (2010535547933257 # 70368744177664) / 100)) = 1
  /\ n_components 7 7 Reference.q28_57
     <> inr (clamp 1 (max_components 7 7)
              (Qfloor (inject_Z (max_components 7 7)
                       * (2010535547933257 # 70368744177664) / 100))).
Proof.
  split; [vm_compute; reflexivity |].
  split; [vm_compute; reflexivity |].
  split; [vm_compute; reflexivity |].
  vm_compute. discriminate.
Qed.

(** Beyond the range of the floats there is no count: at the quality
    1e308 on a 2 x 2 image the product is an infinity and [int()] raises;
    so it does on an infinite quality and on a NaN. *)
Example selector_overflows :
  n_components 2 2 Reference.q1e308
  = inl (Py.OverflowError "cannot convert float infinity to integer")
  /\ n_components 2 2 (Infinity false)
     = inl (Py.OverflowError "cannot convert float infinity to integer")
  /\ n_components 2 2 NaN
     = inl (Py.ValueError "cannot convert float NaN to integer")
  /\ n_components 1 1 Reference.q1e308 = inr 1.
Proof. repeat split; vm_compute; reflexivity. Qed.

(** ** Clipping and the cast to 8 bits *)

Lemma clip1_cases (x : Q) :
  ((x < 0)%Q /\ clip1 x 0 255 = 0%Q)
  \/ ((255 < x)%Q /\ clip1 x 0 255 = 255%Q)
  \/ ((0 <= x)%Q /\ (x <= 255)%Q /\ (clip1 x 0 255 == x)%Q).
Proof.
  unfold clip1, maximum, minimum.
  destruct (Qle_bool x 0) eqn:E0.
  - apply Qle_bool_iff in E0. simpl.
    destruct (Qlt_le_dec x 0) as [Hlt | Hge].
    + left. split; [exact Hlt | reflexivity].
    + right. right. split; [exact Hge |].
      split; [apply Qle_trans with 0%Q; [exact E0 | discriminate] |].
      symmetry. now apply Qle_antisym.
  - assert (H0 : (0 < x)%Q).
    { apply Qnot_le_lt. intros H. apply Qle_bool_iff in H. congruence. }
    destruct (Qle_bool x 255) eqn:E1.
    + apply Qle_bool_iff in E1. right. right.
      split; [now apply Qlt_le_weak |]. split; [exact E1 | reflexivity].
    + right. left. split; [| reflexivity].
      apply Qnot_le_lt. intros H. apply Qle_bool_iff in H. congruence.
Qed.

Lemma clip1_range (x : Q) : (0 <= clip1 x 0 255)%Q /\ (clip1 x 0 255 <= 255)%Q.
Proof.
  destruct (clip1_cases x) as [[_ E] | [[_ E] | (H0 & H1 & E)]].
  - rewrite E. split; discriminate.
  - rewrite E. split; [discriminate | apply Qle_refl].
  - rewrite E. now split.
Qed.

Lemma floor_range (y : Q) :
  (0 <= y)%Q -> (y <= 255)%Q -> 0 <= Qfloor y <= 255.
Proof.
  intros H0 H1. split.
  - change 0 with (Qfloor 0). now apply Qfloor_resp_le.
  - change 255 with (Qfloor 255). now apply Qfloor_resp_le.
Qed.

Lemma uint8_of_clipped (x : Q) :
  uint8_of_float (clip1 x 0 255) = Qfloor (clip1 x 0 255)
  /\ 0 <= uint8_of_float (clip1 x 0 255) <= 255.
Proof.
  destruct (clip1_range x) as [H0 H1].
  pose proof (floor_range _ H0 H1) as Hf.
  unfold uint8_of_float. rewrite (int_nonneg _ H0).
  rewrite Z.mod_small by lia. split; [reflexivity | exact Hf].
Qed.

Lemma uint8_of_byte (z : Z) :
  0 <= z <= 255 -> uint8_of_float (clip1 (inject_Z z) 0 255) = z.
Proof.
  intros Hz. destruct (uint8_of_clipped (inject_Z z)) as [E _]. rewrite E.
  destruct (clip1_cases (inject_Z z)) as [[H _] | [[H _] | (_ & _ & Ec)]].
  - unfold Qlt in H. simpl in H. lia.
  - unfold Qlt in H. simpl in H. lia.
  - rewrite (Qfloor_comp _ _ Ec). apply Qfloor_Z.
Qed.

Lemma clip1_comp (x y : Q) :
  (x == y)%Q -> (clip1 x 0 255 == clip1 y 0 255)%Q.
Proof.
  intros E. unfold clip1, maximum, minimum.
  rewrite <- (Qleb_comp x y E 0%Q 0%Q (Qeq_refl 0)).
  destruct (Qle_bool x 0); [reflexivity |].
  rewrite <- (Qleb_comp x y E 255%Q 255%Q (Qeq_refl 255)).
  destruct (Qle_bool x 255); [exact E | reflexivity].
Qed.

(** ** Lists laid out in blocks *)

Lemma length_flat_map_block {A B} (f : A -> list B) (n : nat) (l : list A) :
  (forall x, List.length (f x) = n) ->
  List.length (flat_map f l) = (List.length l * n)%nat.
Proof.
  intros Hf. induction l as [| x l IH]; simpl.
  - reflexivity.
  - rewrite length_app, Hf, IH. reflexivity.
Qed.

Lemma nth_flat_map_block {A B} (f : A -> list B) (n : nat) (l : list A)
    (i c : nat) (a : A) (d : B) :
  (forall x, List.length (f x) = n) ->
  (i < List.length l)%nat -> (c < n)%nat ->
  nth (i * n + c) (flat_map f l) d = nth c (f (nth i l a)) d.
Proof.
  intros Hf. revert i. induction l as [| x l IH]; intros i Hi Hc.
  - simpl in Hi. lia.
  - destruct i as [| i]; simpl.
    + apply app_nth1. rewrite Hf. exact Hc.
    + rewrite app_nth2 by (rewrite Hf; lia). rewrite Hf.
      replace (n + i * n + c - n)%nat with (i * n + c)%nat by lia.
      apply IH; [simpl in Hi; lia | exact Hc].
Qed.

Lemma nth_map_seq {A} (g : nat -> A) (n i : nat) (d : A) :
  (i < n)%nat -> nth i (map g (seq 0 n)) d = g i.
Proof.
  intros Hi. rewrite (nth_indep _ d (g 0%nat)) by (now rewrite length_map, length_seq).
  rewrite map_nth, seq_nth by exact Hi. reflexivity.
Qed.

Lemma seq_split (c n : nat) :
  (c < n)%nat -> seq 0 n = seq 0 c ++ c :: seq (S c) (n - S c).
Proof.
  intros Hc. assert (E : n = (c + S (n - S c))%nat) by lia.
  rewrite E at 1. rewrite seq_app. reflexivity.
Qed.

Lemma grid_index (h w i j : nat) :
  (i < h)%nat -> (j < w)%nat -> (i * w + j < h * w)%nat.
Proof. intros Hi Hj. nia. Qed.

(** ** The loop *)

Lemma for_each_inr {A B} (body : A -> Py.result B) (xs : list A)
    (acc r : list B) :
  Py.for_each body xs acc = inr r ->
  exists ys, r = acc ++ ys /\ Forall2 (fun x y => body x = inr y) xs ys.
Proof.
  revert acc. induction xs as [| x xs IH]; intros acc H; simpl in H.
  - exists []. injection H as <-. now rewrite app_nil_r.
  - destruct (body x) as [e | y] eqn:Ex; [discriminate |].
    destruct (IH _ H) as (ys & -> & Hys).
    exists (y :: ys). rewrite <- app_assoc. split; [reflexivity |].
    now constructor.
Qed.

Lemma for_each_all {A B} (body : A -> Py.result B) (xs : list A)
    (acc ys : list B) :
  Forall2 (fun x y => body x = inr y) xs ys ->
  Py.for_each body xs acc = inr (acc ++ ys).
Proof.
  intros H. revert acc. induction H as [| x y xs ys Hxy _ IH]; intros acc.
  - simpl. now rewrite app_nil_r.
  - simpl. rewrite Hxy, IH, <- app_assoc. reflexivity.
Qed.

Lemma for_each_first_failure {A B} (body : A -> Py.result B)
    (pre post : list A) (x : A) (acc : list B) (e : Py.exn) :
  (forall p, In p pre -> exists y, body p = inr y) ->
  body x = inl e ->
  Py.for_each body (pre ++ x :: post) acc = inl e.
Proof.
  revert acc. induction pre as [| p pre IH]; intros acc Hpre Hx; simpl.
  - now rewrite Hx.
  - destruct (Hpre p (or_introl eq_refl)) as [y ->].
    apply IH; [| exact Hx]. intros p' Hp'. apply Hpre. now right.
Qed.

Lemma for_each_inl {A B} (body : A -> Py.result B) (xs : list A)
    (acc : list B) (e : Py.exn) :
  Py.for_each body xs acc = inl e -> exists x, In x xs /\ body x = inl e.
Proof.
  revert acc. induction xs as [| x xs IH]; intros acc H; simpl in H.
  - discriminate.
  - destruct (body x) as [e' | y] eqn:Ex.
    + injection H as <-. exists x. split; [now left | exact Ex].
    + destruct (IH _ H) as (x' & Hin & Hx'). exists x'. split; [now right | exact Hx'].
Qed.

Lemma Forall2_seq_nth {B} (P : nat -> B -> Prop) (s n : nat) (ys : list B)
    (d : B) :
  Forall2 P (seq s n) ys ->
  List.length ys = n /\ forall c, (c < n)%nat -> P (s + c)%nat (nth c ys d).
Proof.
  revert s ys. induction n as [| n IH]; intros s ys H; simpl in H.
  - inversion H; subst. split; [reflexivity | intros c Hc; lia].
  - inversion H as [| x y xs ys' Hxy Hrest]; subst.
    destruct (IH _ _ Hrest) as [Hlen Hnth]. split; [simpl; lia |].
    intros [| c] Hc; simpl.
    + now rewrite Nat.add_0_r.
    + replace (s + S c)%nat with (S s + c)%nat by lia. apply Hnth. lia.
Qed.

(** ** Slicing, stacking and casting *)

Lemma unpack3_inr (t : list nat) (h w c : nat) :
  Py.unpack3 t = inr (h, w, c) <-> t = [h; w; c].
Proof.
  split.
  - destruct t as [| a [| b [| c' [| ? ?]]]]; simpl; try discriminate.
    intros H. now inversion H.
  - intros ->. reflexivity.
Qed.


Lemma stack_inr (arrays : list (matrix Q)) (a : ndarray Q) :
  stack arrays = inr a ->
  exists first,
    hd_error arrays = Some first
    /\ a = NdArray [nrows first; ncols first; List.length arrays]
             (flat_map
                (fun idx => map (fun m => nth idx (elems m) 0%Q) arrays)
                (seq 0 (nrows first * ncols first)))
    /\ forall m, In m arrays ->
         nrows m = nrows first /\ ncols m = ncols first.
Proof.
  unfold stack. destruct arrays as [| first rest]; [discriminate |].
  destruct (forallb (same_shape first) (first :: rest)) eqn:E;
    [| discriminate].
  intros H. injection H as <-. exists first. repeat split.
  - rewrite forallb_forall in E. specialize (E _ H).
    unfold same_shape in E. apply andb_prop in E as [E1 _].
    apply Nat.eqb_eq in E1. now symmetry.
  - rewrite forallb_forall in E. specialize (E _ H).
    unfold same_shape in E. apply andb_prop in E as [_ E2].
    apply Nat.eqb_eq in E2. now symmetry.
Qed.

Lemma stack_data_length (arrays : list (matrix Q)) (n : nat) :
  List.length
    (flat_map (fun idx => map (fun m => nth idx (elems m) 0%Q) arrays)
              (seq 0 n))
  = (n * List.length arrays)%nat.
Proof.
  rewrite (length_flat_map_block _ (List.length arrays)).
  - now rewrite length_seq.
  - intros x. apply length_map.
Qed.

Lemma stack_data_nth (arrays : list (matrix Q)) (n idx c : nat)
    (m0 : matrix Q) :
  (idx < n)%nat -> (c < List.length arrays)%nat ->
  nth (idx * List.length arrays + c)
      (flat_map (fun i => map (fun m => nth i (elems m) 0%Q) arrays)
                (seq 0 n)) 0%Q
  = nth idx (elems (nth c arrays m0)) 0%Q.
Proof.
  intros Hidx Hc.
  rewrite (nth_flat_map_block _ (List.length arrays) _ _ _ 0%nat).
  - rewrite seq_nth by exact Hidx. simpl.
    rewrite (nth_indep _ 0%Q (nth idx (elems m0) 0%Q))
      by (now rewrite length_map).
    apply (map_nth (fun m => nth idx (elems m) 0%Q)).
  - intros x. apply length_map.
  - now rewrite length_seq.
  - exact Hc.
Qed.

Lemma nth_map_uint8 (l : list Q) (i : nat) :
  nth i (map uint8_of_float l) 0 = uint8_of_float (nth i l 0%Q).
Proof. exact (map_nth uint8_of_float l 0%Q i). Qed.

Lemma nth_map_clip (l : list Q) (i : nat) :
  nth i (map (fun x => clip1 x 0 255) l) 0%Q = clip1 (nth i l 0%Q) 0 255.
Proof. exact (map_nth (fun x => clip1 x 0 255) l 0%Q i). Qed.

(** Channel [c] of the cast of a stack holds the casts of the elements of
    the [c]-th stacked matrix, at the same positions. *)
Lemma get_channel_stack (arrays : list (matrix Q)) (a : ndarray Q)
    (c : nat) (m0 : matrix Q) :
  stack arrays = inr a -> (c < List.length arrays)%nat ->
  get_channel 0 (astype_uint8 a) c
  = inr (Matrix (nrows (nth c arrays m0)) (ncols (nth c arrays m0))
           (map (fun idx =>
                   uint8_of_float (nth idx (elems (nth c arrays m0)) 0%Q))
                (seq 0 (nrows (nth c arrays m0) * ncols (nth c arrays m0))))).
Proof.
  intros Hs Hc. destruct (stack_inr _ _ Hs) as (first & _ & -> & Hshape).
  destruct (Hshape (nth c arrays m0) (nth_In _ _ Hc)) as [-> ->].
  unfold get_channel, astype_uint8, map_ndarray. simpl shape. simpl data.
  apply Nat.ltb_lt in Hc as Hc'. cbv iota. rewrite Hc'. unfold Py.ret. f_equal. f_equal.
  apply map_ext_in. intros idx Hidx. apply in_seq in Hidx.
  rewrite nth_map_uint8. f_equal.
  apply stack_data_nth; [lia | exact Hc].
Qed.

(** ** The pipeline *)

Lemma get_quantise (rec : matrix Q) (i j : nat) :
  (i < nrows rec)%nat -> (j < ncols rec)%nat ->
  get 0 (quantise rec) i j = uint8_of_float (clip1 (get 0%Q rec i j) 0 255).
Proof.
  intros Hi Hj. unfold get, quantise. simpl.
  now rewrite nth_map_seq by (now apply grid_index).
Qed.

Lemma quantise_range (rec : matrix Q) :
  Forall (fun v => 0 <= v <= 255) (elems (quantise rec)).
Proof.
  apply Forall_forall. intros v Hv. unfold quantise in Hv. simpl in Hv.
  apply in_map_iff in Hv as (idx & <- & _). apply uint8_of_clipped.
Qed.

Section Pipeline.

Context {pillow : Pillow} {sklearn : Sklearn}.

Lemma process_channel_inr (a : ndarray Z) (k : Z) (c : nat) (m : matrix Q) :
  process_channel a k c = inr m <->
  exists rec, reconstruction a k c rec /\ m = clip rec 0 255.
Proof.
  unfold process_channel, reconstruction, Py.bind, Py.ret. split.
  - destruct (get_channel 0 a c) as [e | chan]; [discriminate |].
    destruct (fit_transform k chan) as [e | [pca red]] eqn:Ef; [discriminate |].
    destruct (inverse_transform pca red) as [e | rec] eqn:Ei; [discriminate |].
    intros H. injection H as <-. exists rec. split; [| reflexivity].
    exists chan, pca, red. auto.
  - intros (rec & (chan & pca & red & -> & Ef & Ei) & ->).
    rewrite Ef, Ei. reflexivity.
Qed.

(** What a successful run has computed. *)
Lemma compress_array_inr (a : ndarray Z) (q : float) (out : pil_image) :
  compress_array a q = inr out ->
  exists h w ch k recs stacked,
    shape a = [h; w; ch]
    /\ n_components (Z.of_nat h) (Z.of_nat w) q = inr k
    /\ List.length recs = ch
    /\ (forall c m0, (c < ch)%nat -> reconstruction a k c (nth c recs m0))
    /\ stack (map (fun r => clip r 0 255) recs) = inr stacked
    /\ out = fromarray (astype_uint8 stacked) "RGB".
Proof.
  unfold compress_array, Py.bind, Py.ret.
  destruct (Py.unpack3 (shape a)) as [e | [[h w] ch]] eqn:Eu; [discriminate |].
  apply unpack3_inr in Eu.
  destruct (n_components (Z.of_nat h) (Z.of_nat w) q) as [e | k] eqn:Ek;
    [discriminate |].
  destruct (Py.for_each (process_channel a k) (seq 0 ch) [])
    as [e | chans] eqn:El; [discriminate |].
  destruct (stack chans) as [e | stacked] eqn:Es; [discriminate |].
  intros H. injection H as <-.
  apply for_each_inr in El as (ys & -> & Hall). simpl in Es.
  assert (Hrecs : exists recs,
    ys = map (fun r => clip r 0 255) recs
    /\ Forall2 (fun c rec => reconstruction a k c rec) (seq 0 ch) recs).
  { clear Es. induction Hall as [| c y cs ys Hc _ IH].
    - exists []. split; [reflexivity | constructor].
    - apply process_channel_inr in Hc as (rec & Hrec & ->).
      destruct IH as (recs & -> & Hrecs).
      exists (rec :: recs). split; [reflexivity | now constructor]. }
  destruct Hrecs as (recs & -> & Hrecs).
  exists h, w, ch, k, recs, stacked. repeat split; try assumption.
  - destruct recs as [| m0 recs']; [discriminate |].
    now apply (Forall2_seq_nth _ 0 ch _ m0) in Hrecs as [Hlen _].
  - intros c m0 Hc.
    now apply (Forall2_seq_nth _ 0 ch _ m0) in Hrecs as [_ Hnth];
      apply (Hnth c Hc).
Qed.

(** The same, channel by channel, in terms of the output image. *)
Lemma compress_array_channels (a : ndarray Z) (q : float)
    (out : pil_image) :
  compress_array a q = inr out ->
  exists h w ch h' w' k,
    shape a = [h; w; ch]
    /\ n_components (Z.of_nat h) (Z.of_nat w) q = inr k
    /\ mode out = "RGB"%string
    /\ shape (pixels out) = [h'; w'; ch]
    /\ List.length (data (pixels out)) = (h' * w' * ch)%nat
    /\ (1 <= ch)%nat
    /\ Forall (fun v => 0 <= v <= 255) (data (pixels out))
    /\ forall c, (c < ch)%nat ->
         exists rec,
           reconstruction a k c rec
           /\ nrows rec = h' /\ ncols rec = w'
           /\ get_channel 0 (pixels out) c = inr (quantise rec).
Proof.
  intros H.
  destruct (compress_array_inr _ _ _ H)
    as (h & w & ch & k & recs & stacked & Hshape & Hk & Hlen & Hrec & Hs & ->).
  destruct (stack_inr _ _ Hs) as (first & Hfirst & Hst & Hsame).
  exists h, w, ch, (nrows first), (ncols first), k.
  assert (Hch : List.length (map (fun r => clip r 0 255) recs) = ch)
    by (now rewrite length_map).
  repeat split; try assumption.
  - rewrite Hst. simpl. now rewrite Hch.
  - rewrite Hst. simpl. rewrite length_map, stack_data_length, Hch.
    reflexivity.
  - destruct recs; [discriminate | simpl in Hlen; lia].
  - rewrite Hst. simpl. apply Forall_forall. intros v Hv.
    apply in_map_iff in Hv as (x & <- & Hx).
    apply in_flat_map in Hx as (idx & _ & Hx).
    apply in_map_iff in Hx as (m & <- & Hm).
    apply in_map_iff in Hm as (rec & <- & _). simpl.
    rewrite nth_map_clip. apply uint8_of_clipped.
  - intros c Hc. set (m0 := Matrix 0 0 (@nil Q)).
    exists (nth c recs m0).
    assert (Hin : In (clip (nth c recs m0) 0 255)
                     (map (fun r => clip r 0 255) recs)).
    { apply (in_map (fun r => clip r 0 255)). apply nth_In. lia. }
    destruct (Hsame _ Hin) as [Hr Hcl]. simpl in Hr, Hcl.
    repeat split; [now apply Hrec | exact Hr | exact Hcl |].
    simpl pixels.
    rewrite (get_channel_stack _ _ c (clip m0 0 255) Hs) by lia.
    rewrite (map_nth (fun r => clip r 0 255)). unfold quantise. simpl.
    f_equal. f_equal. apply map_ext. intros idx. now rewrite nth_map_clip.
Qed.

Lemma compress_image_body (img : pil_image) (q : float) :
  compress_image img q = compress_array (load_rgb_array img) q.
Proof.
  unfold compress_image, Py.try_except, Py.raise.
  now destruct (compress_array (load_rgb_array img) q).
Qed.

End Pipeline.

(** ** The decomposition of the specification keeps its contract *)

Lemma spec_pca_keeps_shape (dirs : matrix Q -> nat -> nat -> nat -> Q) :
  @keeps_shape (SpecPCA.sklearn dirs).
Proof.
  intros k m pca red rec. simpl. unfold SpecPCA.fit, SpecPCA.inverse.
  destruct ((nrows m =? 0)%nat || (ncols m =? 0)%nat)%bool; [discriminate |].
  destruct (negb ((0 <=? k) && (k <=? Z.of_nat (Nat.min (nrows m) (ncols m)))));
    [discriminate |].
  unfold Py.ret. intros Hf Hi. injection Hf as <- <-. injection Hi as <-.
  simpl. now rewrite length_map, length_seq.
Qed.


(** ** Saturation *)

Lemma saturating_cast (v : Q) :
  ((v < 0)%Q -> uint8_of_float (clip1 v 0 255) = 0)
  /\ ((255 < v)%Q -> uint8_of_float (clip1 v 0 255) = 255)
  /\ ((0 <= v)%Q -> (v <= 255)%Q ->
      uint8_of_float (clip1 v 0 255) = Qfloor v).
Proof.
  destruct (uint8_of_clipped v) as [Ef _].
  destruct (clip1_cases v) as [[Hv E] | [[Hv E] | (H0 & H1 & E)]].
  - repeat split; intros.
    + now rewrite E.
    + exfalso. apply (Qlt_irrefl 0). apply Qlt_trans with 255%Q; [reflexivity |].
      now apply Qlt_trans with v.
    + exfalso. now apply (Qlt_not_le _ _ Hv).
  - repeat split; intros.
    + exfalso. apply (Qlt_irrefl 0). apply Qlt_trans with 255%Q; [reflexivity |].
      now apply Qlt_trans with v.
    + now rewrite E.
    + exfalso. now apply (Qlt_not_le _ _ Hv).
  - repeat split; intros.
    + exfalso. now apply (Qlt_not_le v 0).
    + exfalso. now apply (Qlt_not_le 255 v).
    + rewrite Ef. now apply Qfloor_comp.
Qed.

Lemma uint8_clip_comp (x y : Q) :
  (x == y)%Q ->
  uint8_of_float (clip1 x 0 255) = uint8_of_float (clip1 y 0 255).
Proof.
  intros E. unfold uint8_of_float. f_equal. apply int_comp.
  now apply clip1_comp.
Qed.

(** ** The claims about [compress_image] *)

(** The elements of a channel, in terms of the array it is sliced from. *)
Lemma get_channel_get {A} (d : A) (a : ndarray A) (h w ch c : nat)
    (m : matrix A) (i j : nat) :
  shape a = [h; w; ch] ->
  get_channel d a c = inr m ->
  (i < h)%nat -> (j < w)%nat ->
  get d m i j = nth ((i * w + j) * ch + c) (data a) d.
Proof.
  intros Hs Hg Hi Hj. unfold get_channel in Hg. rewrite Hs in Hg.
  destruct (c <? ch)%nat; [| discriminate].
  injection Hg as <-. unfold get. simpl.
  now rewrite nth_map_seq by (now apply grid_index).
Qed.

Section Claims.

Context {pillow : Pillow} {sklearn : Sklearn}.

(** C2: every channel value of the output image is an integer in
    [0, 255].  Value [(i, j)] of output channel [c] is the cast of the
    clipped value [(i, j)] of the reconstruction of input channel [c]: 0
    when the reconstruction is below 0, 255 when it is above 255 (the
    range boundaries, not a value wrapped modulo 256 or rescaled), and
    its integer part otherwise. *)
Theorem output_saturates (img : pil_image) (q : float) (out : pil_image) :
  compress_image img q = inr out ->
  Forall (fun v => 0 <= v <= 255) (data (pixels out))
  /\ exists h w ch k,
       shape (load_rgb_array img) = [h; w; ch]
       /\ n_components (Z.of_nat h) (Z.of_nat w) q = inr k
       /\ forall c, (c < ch)%nat ->
          exists rec m,
            reconstruction (load_rgb_array img) k c rec
            /\ get_channel 0 (pixels out) c = inr m
            /\ forall i j, (i < nrows rec)%nat -> (j < ncols rec)%nat ->
                 let v := get 0%Q rec i j in
                 get 0 m i j = uint8_of_float (clip1 v 0 255)
                 /\ ((v < 0)%Q -> get 0 m i j = 0)
                 /\ ((255 < v)%Q -> get 0 m i j = 255)
                 /\ ((0 <= v)%Q -> (v <= 255)%Q -> get 0 m i j = Qfloor v).
Proof.
  rewrite compress_image_body. intros H.
  destruct (compress_array_channels _ _ _ H)
    as (h & w & ch & h' & w' & k & Hs & Hk & _ & _ & _ & _ & Hrange & Hch).
  split; [exact Hrange |]. exists h, w, ch, k. split; [exact Hs |].
  split; [exact Hk |].
  intros c Hc. destruct (Hch c Hc) as (rec & Hrec & _ & _ & Hget).
  exists rec, (quantise rec). repeat split; try assumption;
    rewrite get_quantise by assumption; try reflexivity;
    apply saturating_cast.
Qed.


(** C6: [compress_image] is all or nothing.  A run either raises, or
    returns a complete image: mode RGB, one channel per channel of the
    input (at least one), all of one height and width, as many values as
    the shape asks for, and at every position [(i, j)] of every channel
    [c] the clipped and cast value [(i, j)] of the reconstruction of input
    channel [c]; no position is left out and no value is anything else.
    An exception raised by the shape unpacking, by the selector, by the
    transform of a channel (in [fit_transform] or [inverse_transform]) or
    by the reassembly ([np.stack]) is the exception the caller receives:
    the handler re-raises what it caught. *)
Theorem all_or_nothing (img : pil_image) (q : float) :
  let a := load_rgb_array img in
  match compress_image img q with
  | inr out =>
      mode out = "RGB"%string
      /\ exists h w ch h' w' k,
           shape a = [h; w; ch]
           /\ (1 <= ch)%nat
           /\ n_components (Z.of_nat h) (Z.of_nat w) q = inr k
           /\ shape (pixels out) = [h'; w'; ch]
           /\ List.length (data (pixels out)) = (h' * w' * ch)%nat
           /\ Forall (fun v => 0 <= v <= 255) (data (pixels out))
           /\ forall c, (c < ch)%nat ->
                exists rec,
                  reconstruction a k c rec
                  /\ nrows rec = h' /\ ncols rec = w'
                  /\ get_channel 0 (pixels out) c = inr (quantise rec)
                  /\ forall i j, (i < h')%nat -> (j < w')%nat ->
                       nth ((i * w' + j) * ch + c) (data (pixels out)) 0
                       = uint8_of_float (clip1 (get 0%Q rec i j) 0 255)
  | inl e => compress_array a q = inl e
  end
  /\ (forall e, Py.unpack3 (shape a) = inl e -> compress_image img q = inl e)
  /\ (forall h w ch e,
        shape a = [h; w; ch] ->
        n_components (Z.of_nat h) (Z.of_nat w) q = inl e ->
        compress_image img q = inl e)
  /\ (forall h w ch k c e,
        shape a = [h; w; ch] -> (c < ch)%nat ->
        n_components (Z.of_nat h) (Z.of_nat w) q = inr k ->
        (forall c', (c' < c)%nat -> exists rec, reconstruction a k c' rec) ->
        transform_raises a k c e ->
        compress_image img q = inl e)
  /\ (forall h w ch k recs e,
        shape a = [h; w; ch] ->
        n_components (Z.of_nat h) (Z.of_nat w) q = inr k ->
        Forall2 (reconstruction a k) (seq 0 ch) recs ->
        stack (map (fun r => clip r 0 255) recs) = inl e ->
        compress_image img q = inl e).
Proof.
  intros a. rewrite compress_image_body. fold a. repeat split.
  - destruct (compress_array a q) as [e | out] eqn:E; [reflexivity |].
    destruct (compress_array_channels _ _ _ E)
      as (h & w & ch & h' & w' & k & Hsa & Hk & Hm & Hs & Hl & Hch & Hr & Hall).
    split; [exact Hm |]. exists h, w, ch, h', w', k.
    repeat split; try assumption.
    intros c Hc. destruct (Hall c Hc) as (rec & Hrec & Hnr & Hnc & Hget).
    exists rec. repeat split; try assumption.
    intros i j Hi Hj.
    rewrite <- (get_channel_get 0 (pixels out) h' w' ch c (quantise rec) i j
                  Hs Hget Hi Hj).
    apply get_quantise; lia.
  - intros e He. unfold compress_array. now rewrite He.
  - intros h w ch e Hs He. unfold compress_array. rewrite Hs. simpl.
    now rewrite He.
  - intros h w ch k c e Hs Hc Hk Hbefore (chan & Hg & Hfail).
    unfold compress_array. rewrite Hs. simpl. rewrite Hk. simpl.
    replace (seq 0 ch) with (seq 0 c ++ c :: seq (S c) (ch - S c)).
    + rewrite (for_each_first_failure _ _ _ _ _ e); [reflexivity | |].
      * intros p Hp. apply in_seq in Hp.
        destruct (Hbefore p ltac:(lia)) as [rec Hrec].
        exists (clip rec 0 255). apply process_channel_inr. now exists rec.
      * unfold process_channel, Py.bind. rewrite Hg.
        destruct Hfail as [-> | (pca & red & -> & ->)]; reflexivity.
    + symmetry. now apply seq_split.
  - intros h w ch k recs e Hs Hk Hall Hstack.
    unfold compress_array. rewrite Hs. simpl. rewrite Hk. simpl.
    rewrite (for_each_all _ _ [] (map (fun r => clip r 0 255) recs)).
    + simpl. unfold Py.bind. now rewrite Hstack.
    + clear Hstack. induction Hall; simpl; constructor; [| assumption].
      apply process_channel_inr. eexists. split; [eassumption | reflexivity].
Qed.

(** C8: channel noninterference.  For two images of equal dimensions that
    agree on channel [c], compressed at the same quality, channel [c] of
    the two outputs is the same, whatever the other channels hold. *)
Theorem channel_noninterference (img1 img2 : pil_image) (q : float)
    (c : nat) (out1 out2 : pil_image) :
  shape (load_rgb_array img1) = shape (load_rgb_array img2) ->
  get_channel 0 (load_rgb_array img1) c
    = get_channel 0 (load_rgb_array img2) c ->
  compress_image img1 q = inr out1 ->
  compress_image img2 q = inr out2 ->
  get_channel 0 (pixels out1) c = get_channel 0 (pixels out2) c.
Proof.
  rewrite !compress_image_body. intros Hshape Hchan H1 H2.
  destruct (compress_array_channels _ _ _ H1)
    as (h & w & ch & h1 & w1 & k1 & Hs1 & Hk1 & _ & Ho1 & _ & _ & _ & Hc1).
  destruct (compress_array_channels _ _ _ H2)
    as (h2 & w2 & ch2 & h2' & w2' & k2 & Hs2 & Hk2 & _ & Ho2 & _ & _ & _
        & Hc2).
  rewrite Hshape, Hs2 in Hs1. injection Hs1 as -> -> ->.
  rewrite Hk2 in Hk1. injection Hk1 as <-.
  destruct (Nat.ltb_spec c ch) as [Hc | Hc].
  - destruct (Hc1 c Hc) as (r1 & (d1 & p1 & e1 & Hg1 & Hf1 & Hi1) & _ & _ & ->).
    destruct (Hc2 c Hc) as (r2 & (d2 & p2 & e2 & Hg2 & Hf2 & Hi2) & _ & _ & ->).
    rewrite Hchan, Hg2 in Hg1. injection Hg1 as <-.
    rewrite Hf2 in Hf1. injection Hf1 as <- <-.
    rewrite Hi2 in Hi1. now injection Hi1 as <-.
  - unfold get_channel. rewrite Ho1, Ho2.
    apply Nat.ltb_ge in Hc. now rewrite Hc.
Qed.


(** C10: the cast to 8 bits drops the fraction, it does not round to the
    nearest integer.  The stored value of a reconstructed value [v] is the
    floor of the clipped [v]; 254.9 is stored as 254; and this is the value
    [compress_image] stores at every position of every channel. *)
Theorem cast_is_floor (img : pil_image) (q : float) :
  (forall v, uint8_of_float (clip1 v 0 255) = Qfloor (clip1 v 0 255))
  /\ uint8_of_float (clip1 (2549 # 10) 0 255) = 254
  /\ forall out, compress_image img q = inr out ->
     exists h w ch k,
       shape (load_rgb_array img) = [h; w; ch]
       /\ n_components (Z.of_nat h) (Z.of_nat w) q = inr k
       /\ forall c, (c < ch)%nat ->
          exists rec m,
            reconstruction (load_rgb_array img) k c rec
            /\ get_channel 0 (pixels out) c = inr m
            /\ forall i j, (i < nrows rec)%nat -> (j < ncols rec)%nat ->
                 get 0 m i j = Qfloor (clip1 (get 0%Q rec i j) 0 255).
Proof.
  split; [intros v; apply uint8_of_clipped |].
  split; [reflexivity |].
  intros out. rewrite compress_image_body. intros H.
  destruct (compress_array_channels _ _ _ H)
    as (h & w & ch & h' & w' & k & Hs & Hk & _ & _ & _ & _ & _ & Hch).
  exists h, w, ch, k. split; [exact Hs |]. split; [exact Hk |].
  intros c Hc. destruct (Hch c Hc) as (rec & Hrec & _ & _ & Hget).
  exists rec, (quantise rec). repeat split; try assumption.
  intros i j Hi Hj. rewrite get_quantise by assumption.
  apply uint8_of_clipped.
Qed.

End Claims.

(** ** The decomposition of the specification on a channel without
    variance *)

Lemma get_tabulate {A} (d : A) (h w : nat) (f : nat -> nat -> A)
    (i j : nat) :
  (i < h)%nat -> (j < w)%nat -> get d (tabulate h w f) i j = f i j.
Proof.
  intros Hi Hj. unfold get, tabulate. simpl.
  rewrite (nth_flat_map_block _ w _ _ _ 0%nat).
  - rewrite seq_nth by exact Hi. simpl. now apply nth_map_seq.
  - intros x. now rewrite length_map, length_seq.
  - now rewrite length_seq.
  - exact Hj.
Qed.

Lemma fold_sum_ext (f g : nat -> Q) (l : list nat) :
  (forall i, In i l -> (f i == g i)%Q) ->
  (fold_right (fun i acc => f i + acc) 0 l
   == fold_right (fun i acc => g i + acc) 0 l)%Q.
Proof.
  induction l as [| x l IH]; intros H; simpl.
  - reflexivity.
  - rewrite (H x (or_introl eq_refl)), IH; [reflexivity |].
    intros i Hi. apply H. now right.
Qed.

Lemma sumQ_ext (n : nat) (f g : nat -> Q) :
  (forall i, (i < n)%nat -> (f i == g i)%Q) ->
  (SpecPCA.sumQ n f == SpecPCA.sumQ n g)%Q.
Proof.
  intros H. apply fold_sum_ext. intros i Hi. apply in_seq in Hi.
  apply H. lia.
Qed.

Lemma fold_sum_const (c : Q) (l : list nat) :
  (fold_right (fun _ acc => c + acc) 0 l
   == inject_Z (Z.of_nat (List.length l)) * c)%Q.
Proof.
  induction l as [| x l IH].
  - simpl. ring.
  - cbn [fold_right List.length]. rewrite IH, Nat2Z.inj_succ.
    unfold Z.succ. rewrite inject_Z_plus. ring.
Qed.

Lemma sumQ_const (n : nat) (c : Q) :
  (SpecPCA.sumQ n (fun _ => c) == inject_Z (Z.of_nat n) * c)%Q.
Proof.
  unfold SpecPCA.sumQ. rewrite fold_sum_const, length_seq. reflexivity.
Qed.

Lemma sumQ_zero (n : nat) (f : nat -> Q) :
  (forall i, (i < n)%nat -> (f i == 0)%Q) -> (SpecPCA.sumQ n f == 0)%Q.
Proof.
  intros H. rewrite (sumQ_ext n f (fun _ => 0%Q) H), sumQ_const. ring.
Qed.

Section ZeroVariance.

Variable dirs : matrix Q -> nat -> nat -> nat -> Q.

Lemma spec_pca_fit_inr (k : Z) (X : matrix Z) :
  (1 <= nrows X)%nat -> (1 <= ncols X)%nat ->
  0 <= k <= Z.of_nat (Nat.min (nrows X) (ncols X)) ->
  exists pca red rec,
    SpecPCA.fit dirs k X = inr (pca, red)
    /\ SpecPCA.inverse pca red = inr rec
    /\ nrows rec = nrows X /\ ncols rec = ncols X
    /\ well_formed rec
    /\ forall i j, (i < nrows X)%nat -> (j < ncols X)%nat ->
         (get 0 rec i j ==
          SpecPCA.sumQ (Z.to_nat k) (fun t =>
            get 0 red i t * get 0 (SpecPCA.components_ pca) t j)
          + nth j (SpecPCA.mean_ pca) 0)%Q
         /\ (nth j (SpecPCA.mean_ pca) 0 ==
             SpecPCA.sumQ (nrows X) (fun i' => inject_Z (get 0%Z X i' j))
             / inject_Z (Z.of_nat (nrows X)))%Q
         /\ forall t, (t < Z.to_nat k)%nat ->
              (get 0 red i t ==
               SpecPCA.sumQ (ncols X) (fun j' =>
                 (inject_Z (get 0%Z X i j') - nth j' (SpecPCA.mean_ pca) 0)
                 * get 0 (SpecPCA.components_ pca) t j'))%Q.
Proof.
  intros Hh Hw Hk. unfold SpecPCA.fit.
  assert (E1 : ((nrows X =? 0)%nat || (ncols X =? 0)%nat)%bool = false).
  { apply orb_false_iff. split; apply Nat.eqb_neq; lia. }
  assert (E2 : negb ((0 <=? k)
                     && (k <=? Z.of_nat (Nat.min (nrows X) (ncols X))))
               = false).
  { apply negb_false_iff, andb_true_iff. split; apply Z.leb_le; lia. }
  rewrite E1, E2. unfold Py.ret, SpecPCA.inverse.
  eexists. eexists. eexists. split; [reflexivity |].
  split; [reflexivity |]. cbn [SpecPCA.mean_ SpecPCA.components_].
  rewrite length_map, length_seq.
  split; [reflexivity |]. split; [reflexivity |]. split.
  { unfold well_formed, tabulate. cbn [elems nrows ncols].
    rewrite (length_flat_map_block _ (ncols X)), length_seq; [reflexivity |].
    intros x. now rewrite length_map, length_seq. }
  intros i j Hi Hj. split; [| split].
  - rewrite get_tabulate by (cbn [nrows tabulate]; assumption).
    cbn [ncols tabulate]. reflexivity.
  - rewrite nth_map_seq by exact Hj. reflexivity.
  - intros t Ht. rewrite get_tabulate by assumption.
    apply sumQ_ext. intros j' Hj'. rewrite get_tabulate by assumption.
    reflexivity.
Qed.

(** On a channel whose rows are all equal the reconstruction is the
    channel itself, whatever the directions. *)
Lemma spec_pca_zero_variance (k : Z) (X : matrix Z) :
  (1 <= nrows X)%nat -> (1 <= ncols X)%nat ->
  0 <= k <= Z.of_nat (Nat.min (nrows X) (ncols X)) ->
  zero_variance X ->
  exists pca red rec,
    SpecPCA.fit dirs k X = inr (pca, red)
    /\ SpecPCA.inverse pca red = inr rec
    /\ nrows rec = nrows X /\ ncols rec = ncols X
    /\ forall i j, (i < nrows X)%nat -> (j < ncols X)%nat ->
         (get 0 rec i j == inject_Z (get 0%Z X i j))%Q.
Proof.
  intros Hh Hw Hk Hz.
  destruct (spec_pca_fit_inr k X Hh Hw Hk)
    as (pca & red & rec & Hf & Hi & Hr & Hc & _ & Hget).
  exists pca, red, rec. repeat split; try assumption.
  assert (Hmean : forall i j, (i < nrows X)%nat -> (j < ncols X)%nat ->
            (nth j (SpecPCA.mean_ pca) 0 == inject_Z (get 0%Z X i j))%Q).
  { intros i j Hi' Hj'. destruct (Hget i j Hi' Hj') as (_ & -> & _).
    rewrite (sumQ_ext _ _ (fun _ => inject_Z (get 0%Z X i j))).
    - rewrite sumQ_const. field.
      intros E. unfold Qeq in E. simpl in E. lia.
    - intros i' Hi''. rewrite (Hz i' j), (Hz i j) by assumption.
      reflexivity. }
  intros i j Hi' Hj'. destruct (Hget i j Hi' Hj') as (-> & _ & Hred).
  rewrite sumQ_zero.
  - rewrite (Hmean i j) by assumption. ring.
  - intros t Ht. rewrite (Hred t Ht), sumQ_zero; [ring |].
    intros j' Hj''. rewrite (Hmean i j') by assumption. ring.
Qed.

End ZeroVariance.

Lemma nth_grid {A} (d : A) (w idx : nat) (l : list A) :
  (0 < w)%nat -> nth idx l d = nth ((idx / w) * w + idx mod w) l d.
Proof.
  intros Hw. f_equal. rewrite Nat.mul_comm. apply Nat.div_mod_eq.
Qed.

Lemma grid_coordinates (h w idx : nat) :
  (idx < h * w)%nat -> (idx / w < h)%nat /\ (idx mod w < w)%nat.
Proof.
  intros H. assert (Hw : (0 < w)%nat) by nia. split.
  - apply Nat.Div0.div_lt_upper_bound. nia.
  - apply Nat.mod_upper_bound. lia.
Qed.

(** A reconstruction that equals a channel of bytes is stored as that
    channel. *)
Lemma quantise_exact (X : matrix Z) (rec : matrix Q) :
  well_formed X ->
  Forall (fun v => 0 <= v <= 255) (elems X) ->
  nrows rec = nrows X -> ncols rec = ncols X ->
  (forall i j, (i < nrows X)%nat -> (j < ncols X)%nat ->
     (get 0 rec i j == inject_Z (get 0%Z X i j))%Q) ->
  quantise rec = X.
Proof.
  intros Hwf Hbytes Hr Hc Hget. unfold quantise. rewrite Hr, Hc.
  destruct X as [h w els]. unfold well_formed in Hwf. simpl in *.
  f_equal. apply (nth_ext _ _ 0 0).
  - now rewrite length_map, length_seq.
  - intros idx Hidx. rewrite length_map, length_seq in Hidx.
    rewrite nth_map_seq by exact Hidx.
    destruct (grid_coordinates _ _ _ Hidx) as [Hi Hj].
    assert (Hw : (0 < w)%nat) by lia.
    specialize (Hget _ _ Hi Hj). unfold get in Hget. simpl in Hget.
    rewrite Hc, <- !nth_grid in Hget by exact Hw.
    rewrite (uint8_clip_comp _ _ Hget). apply uint8_of_byte.
    rewrite Forall_forall in Hbytes. apply Hbytes, nth_In. lia.
Qed.

(** The decomposition of the specification on a channel of bytes without
    variance: it succeeds, and what is stored is the channel. *)
Lemma spec_pca_degenerate (dirs : matrix Q -> nat -> nat -> nat -> Q)
    (k : Z) (X : matrix Z) :
  (1 <= nrows X)%nat -> (1 <= ncols X)%nat ->
  well_formed X ->
  Forall (fun v => 0 <= v <= 255) (elems X) ->
  zero_variance X ->
  0 <= k <= Z.of_nat (Nat.min (nrows X) (ncols X)) ->
  exists pca reduced rec,
    SpecPCA.fit dirs k X = inr (pca, reduced)
    /\ SpecPCA.inverse pca reduced = inr rec
    /\ quantise rec = X.
Proof.
  intros Hh Hw Hwf Hbytes Hz Hk.
  destruct (spec_pca_zero_variance dirs k X Hh Hw Hk Hz)
    as (pca & red & rec & Hf & Hi & Hr & Hc & Hget).
  exists pca, red, rec. split; [exact Hf |]. split; [exact Hi |].
  now apply quantise_exact.
Qed.

(** C4: for a channel of bytes without variance (every row equal to the
    first) and every component count [k >= 1] (a component count being at
    most [min(H, W)], the invariant of the data model that the selector
    keeps), the transform does not raise, and the reconstructed channel,
    clipped and cast, differs from the original channel by at most one
    intensity unit at every position; in exact arithmetic it is the
    original channel.  Modelled on the decomposition of the specification,
    for every choice of directions. *)
Theorem degenerate_channel_reproduced
    (dirs : matrix Q -> nat -> nat -> nat -> Q) (k : Z) (X : matrix Z) :
  (1 <= nrows X)%nat -> (1 <= ncols X)%nat ->
  well_formed X ->
  Forall (fun v => 0 <= v <= 255) (elems X) ->
  zero_variance X ->
  1 <= k <= Z.of_nat (Nat.min (nrows X) (ncols X)) ->
  exists pca reduced rec,
    @fit_transform (SpecPCA.sklearn dirs) k X = inr (pca, reduced)
    /\ @inverse_transform (SpecPCA.sklearn dirs) pca reduced = inr rec
    /\ quantise rec = X
    /\ forall i j, (i < nrows X)%nat -> (j < ncols X)%nat ->
         Z.abs (get 0 (quantise rec) i j - get 0 X i j) <= 1.
Proof.
  intros Hh Hw Hwf Hbytes Hz Hk.
  destruct (spec_pca_degenerate dirs k X Hh Hw Hwf Hbytes Hz ltac:(lia))
    as (pca & red & rec & Hf & Hi & E).
  exists pca, red, rec. split; [exact Hf |]. split; [exact Hi |].
  split; [exact E |]. intros i j _ _. rewrite E. lia.
Qed.

Lemma degenerate_channel_reproduced_witness :
  exists pca reduced rec,
    @fit_transform Reference.sklearn 2 (Matrix 4 4 (repeat 128 16))
      = inr (pca, reduced)
    /\ @inverse_transform Reference.sklearn pca reduced = inr rec
    /\ quantise rec = Matrix 4 4 (repeat 128 16)
    /\ forall i j, (i < 4)%nat -> (j < 4)%nat ->
         Z.abs (get 0 (quantise rec) i j
                - get 0 (Matrix 4 4 (repeat 128 16)) i j) <= 1.
Proof.
  apply (degenerate_channel_reproduced Reference.axis_directions 2
           (Matrix 4 4 (repeat 128 16))).
  - simpl. lia.
  - simpl. lia.
  - reflexivity.
  - simpl. repeat constructor; lia.
  - intros i j Hi Hj. simpl in Hi, Hj.
    assert (Ei : (i = 0 \/ i = 1 \/ i = 2 \/ i = 3)%nat) by lia.
    assert (Ej : (j = 0 \/ j = 1 \/ j = 2 \/ j = 3)%nat) by lia.
    destruct Ei as [-> | [-> | [-> | ->]]];
    destruct Ej as [-> | [-> | [-> | ->]]]; reflexivity.
  - simpl. lia.
Defined.

(** C9: for a single pixel and every quality (every finite float),
    [max_components] is 1, the component count is 1, the transform
    succeeds, and the output image is the input image, value for value.
    Modelled on the decomposition of the specification, for every choice
    of directions. *)
Theorem single_pixel_exact {pillow : Pillow}
    (dirs : matrix Q -> nat -> nat -> nat -> Q) (r g b : Z) (q : float) :
  0 <= r <= 255 -> 0 <= g <= 255 -> 0 <= b <= 255 ->
  Float64.finite q ->
  let img := PilImage "RGB" (NdArray [1%nat; 1%nat; 3%nat] [r; g; b]) in
  max_components 1 1 = 1
  /\ n_components 1 1 q = inr 1
  /\ @compress_image pillow (SpecPCA.sklearn dirs) img q = inr img.
Proof.
  intros Hr Hg Hb Hfin img.
  assert (Hk : n_components 1 1 q = inr 1).
  { destruct q as [v | s |]; simpl in Hfin; try contradiction.
    rewrite n_components_returns.
    - f_equal. change (Z.min 1 1) with 1. lia.
    - change (Z.min 1 1) with 1. lia.
    - change (Z.min 1 1) with 1. now rewrite Qmult_1_l. }
  split; [reflexivity |]. split; [exact Hk |].
  assert (Hchan : forall x, 0 <= x <= 255 ->
    exists rec,
      @fit_transform (SpecPCA.sklearn dirs) 1 (Matrix 1 1 [x]) =
        inr (fst rec, fst (snd rec))
      /\ @inverse_transform (SpecPCA.sklearn dirs) (fst rec) (fst (snd rec))
         = inr (snd (snd rec))
      /\ quantise (snd (snd rec)) = Matrix 1 1 [x]).
  { intros x Hx.
    destruct (spec_pca_degenerate dirs 1 (Matrix 1 1 [x]))
      as (pca & red & rec & Hf & Hi & Hq); simpl; try lia.
    - reflexivity.
    - repeat constructor; lia.
    - intros i j Hi Hj. simpl in Hi, Hj.
      destruct i as [| i]; [reflexivity | lia].
    - now exists (pca, (red, rec)). }
  destruct (Hchan r Hr) as ([p0 [d0 m0]] & Hf0 & Hi0 & Hq0).
  destruct (Hchan g Hg) as ([p1 [d1 m1]] & Hf1 & Hi1 & Hq1).
  destruct (Hchan b Hb) as ([p2 [d2 m2]] & Hf2 & Hi2 & Hq2).
  simpl fst in *. simpl snd in *.
  rewrite compress_image_body. unfold img, load_rgb_array, compress_array.
  simpl mode. simpl np_array. simpl shape. cbn [Py.unpack3 Py.bind Py.ret].
  change (Z.of_nat 1) with 1. rewrite Hk. cbn [Py.bind].
  cbn [seq Py.for_each]. unfold process_channel, get_channel.
  cbn [shape data Py.bind Py.ret Nat.ltb Nat.leb seq map Nat.mul Nat.add nth].
  rewrite Hf0, Hf1, Hf2. cbn [Py.bind]. rewrite Hi0, Hi1, Hi2.
  cbn [Py.bind Py.ret app].
  destruct m0 as [h0 w0 e0], m1 as [h1 w1 e1], m2 as [h2 w2 e2].
  unfold quantise in Hq0, Hq1, Hq2. simpl in Hq0, Hq1, Hq2.
  injection Hq0 as -> -> Hq0. injection Hq1 as -> -> Hq1.
  injection Hq2 as -> -> Hq2. simpl in Hq0, Hq1, Hq2.
  injection Hq0 as Hq0. injection Hq1 as Hq1. injection Hq2 as Hq2.
  unfold stack, clip, map_matrix. simpl.
  unfold fromarray, astype_uint8, map_ndarray. simpl.
  rewrite !nth_map_clip, Hq0, Hq1, Hq2. reflexivity.
Qed.

Lemma single_pixel_exact_witness :
  max_components 1 1 = 1
  /\ n_components 1 1 Reference.q73 = inr 1
  /\ Reference.compress_image Reference.pixel_1x1 Reference.q73
     = inr Reference.pixel_1x1.
Proof.
  apply (@single_pixel_exact Reference.pillow Reference.axis_directions
           12 34 56 Reference.q73); try lia.
  vm_compute. discriminate.
Defined.

(** ** The claims on concrete images *)

(** In every channel of the example images the coordinate axes are the
    principal directions. *)
Example example_channels_axis_aligned :
  forall img c chan,
    In img [Reference.flat_4x4; Reference.bands_3x3; Reference.tints_3x3;
            Reference.pixel_1x1] ->
    (c < 3)%nat ->
    get_channel 0 (pixels img) c = inr chan ->
    Reference.axis_aligned chan = true.
Proof.
  intros img c chan Himg Hc.
  assert (Ec : (c = 0 \/ c = 1 \/ c = 2)%nat) by lia.
  simpl in Himg.
  destruct Himg as [<- | [<- | [<- | [<- | []]]]];
    destruct Ec as [-> | [-> | ->]];
    intros H; vm_compute in H; injection H as <-; vm_compute; reflexivity.
Qed.

Example bands_3x3_run :
  Reference.compress_image Reference.bands_3x3 Reference.q50
  = inr Reference.bands_3x3_q50.
Proof. vm_compute. reflexivity. Qed.

Example tints_3x3_run :
  Reference.compress_image Reference.tints_3x3 Reference.q50
  = inr Reference.tints_3x3_q50.
Proof. vm_compute. reflexivity. Qed.

Lemma output_saturates_witness :
  Forall (fun v => 0 <= v <= 255) (data (pixels Reference.bands_3x3_q50)).
Proof.
  apply (@output_saturates Reference.pillow Reference.sklearn
           Reference.bands_3x3 Reference.q50 Reference.bands_3x3_q50).
  vm_compute. reflexivity.
Defined.


Lemma all_or_nothing_witness :
  Reference.compress_image Reference.empty_0x5 Reference.q50
  = inl (Py.ValueError "Found array with 0 sample(s) or feature(s)").
Proof.
  destruct (@all_or_nothing Reference.pillow Reference.sklearn
              Reference.empty_0x5 Reference.q50) as (_ & _ & _ & Hraise & _).
  apply (Hraise 0%nat 5%nat 3%nat 0 0%nat).
  - reflexivity.
  - lia.
  - vm_compute. reflexivity.
  - intros c' Hc'. lia.
  - eexists. split; [reflexivity |]. left. reflexivity.
Defined.

Lemma channel_noninterference_witness :
  get_channel 0 (pixels Reference.bands_3x3_q50) 2
  = get_channel 0 (pixels Reference.tints_3x3_q50) 2.
Proof.
  apply (@channel_noninterference Reference.pillow Reference.sklearn
           Reference.bands_3x3 Reference.tints_3x3 Reference.q50 2).
  - reflexivity.
  - reflexivity.
  - vm_compute. reflexivity.
  - vm_compute. reflexivity.
Defined.

(** A greyscale pixel, with or without an alpha band, is converted and
    compressed as the grey RGB pixel. *)
Example grey_pixels_run :
  Reference.compress_image Reference.grey_1x1 Reference.q50
  = inr (PilImage "RGB" (NdArray [1%nat; 1%nat; 3%nat] [7; 7; 7]))
  /\ Reference.compress_image Reference.grey_alpha_1x1 Reference.q50
     = inr (PilImage "RGB" (NdArray [1%nat; 1%nat; 3%nat] [7; 7; 7])).
Proof. split; vm_compute; reflexivity. Qed.


Lemma cast_is_floor_witness :
  uint8_of_float (clip1 (2549 # 10) 0 255) = 254
  /\ uint8_of_float (clip1 (-3 # 2) 0 255) = Qfloor (clip1 (-3 # 2) 0 255).
Proof.
  destruct (@cast_is_floor Reference.pillow Reference.sklearn
              Reference.bands_3x3 Reference.q50) as (Hfloor & H254 & _).
  split; [exact H254 | apply Hfloor].
Defined.

(** * Further properties of the code *)

(** ** The two quality knobs *)

(** X1: the quality handed to the JPEG encoder is always between 10 and
    95: every quality below 11 gives 10, every quality from 95 on gives
    95, and between 10 and 95 it is the quality with its fraction
    dropped.  On an infinity and on a NaN [int()] raises. *)
Theorem jpeg_quality_saturates (q : Q) :
  (exists n,
     jpeg_quality (Finite q) = inr n
     /\ 10 <= n <= 95
     /\ ((q < 11)%Q -> n = 10)
     /\ ((95 <= q)%Q -> n = 95)
     /\ ((10 <= q)%Q -> (q <= 95)%Q -> n = Qfloor q))
  /\ (forall s, exists e, jpeg_quality (Infinity s) = inl e)
  /\ (exists e, jpeg_quality NaN = inl e).
Proof.
  split; [| split; [intros s | ]; eexists; reflexivity].
  exists (Py.max 10 (Py.min 95 (Py.int q))). split; [reflexivity |].
  unfold Py.max, Py.min. split; [lia |]. split; [| split].
  - intros H. assert (Hi : Py.int q <= 10).
    { destruct (Qlt_le_dec q 0) as [Hq | Hq].
      - destruct (int_neg q Hq). lia.
      - rewrite (int_nonneg q Hq).
        assert (Hf : Qfloor q < 11).
        { apply Z.lt_nge. intros Hge.
          apply (Qlt_not_le _ _ H).
          apply Qle_trans with (inject_Z (Qfloor q)); [| apply Qfloor_le].
          unfold Qle. simpl. lia. }
        lia. }
    lia.
  - intros H. pose proof (int_monotone _ _ H) as Hi.
    change (Py.int 95) with 95 in Hi. lia.
  - intros H0 H1.
    assert (Hq : (0 <= q)%Q) by (apply Qle_trans with 10%Q; [discriminate | exact H0]).
    rewrite (int_nonneg q Hq).
    pose proof (Qfloor_resp_le _ _ H0) as Ha.
    pose proof (Qfloor_resp_le _ _ H1) as Hb.
    change (Qfloor 10) with 10 in Ha. change (Qfloor 95) with 95 in Hb. lia.
Qed.

Lemma jpeg_quality_saturates_witness :
  jpeg_quality (Finite (7 # 2)) = inr 10
  /\ jpeg_quality (Finite 300) = inr 95
  /\ jpeg_quality (Finite (505 # 10)) = inr 50.
Proof.
  split; [| split].
  - destruct (jpeg_quality_saturates (7 # 2))
      as ((n & E & _ & Hlow & _) & _).
    rewrite E, Hlow; reflexivity.
  - destruct (jpeg_quality_saturates 300) as ((n & E & _ & _ & Hhigh & _) & _).
    rewrite E, Hhigh; [reflexivity | discriminate].
  - destruct (jpeg_quality_saturates (505 # 10))
      as ((n & E & _ & _ & _ & Hmid) & _).
    rewrite E, Hmid; [reflexivity | discriminate | discriminate].
Defined.

Lemma scaled_quality_monotone (m : Z) (q1 q2 : Q) :
  0 <= m -> (q1 <= q2)%Q ->
  (scaled_quality m q1 <= scaled_quality m q2)%Q.
Proof.
  intros Hm Hq. unfold scaled_quality. apply round_monotone.
  rewrite round_100. unfold Qdiv. change (/ 100)%Q with (1 # 100)%Q.
  assert (H0 : (0 <= Float64.round (inject_Z m))%Q).
  { apply round_sign. change 0%Q with (inject_Z 0). now rewrite <- Zle_Qle. }
  assert (H1 : (Float64.round (inject_Z m) * q1
                <= Float64.round (inject_Z m) * q2)%Q) by nra.
  apply round_monotone in H1. lra.
Qed.

(** X2: both knobs are monotone in the quality: of two finite qualities
    the higher never gives fewer components, where the selector returns
    a count for both, nor a lower encoder quality. *)
Theorem quality_monotone (h w : Z) (q1 q2 : Q) :
  0 <= h -> 0 <= w -> (q1 <= q2)%Q ->
  (forall k1 k2,
     n_components h w (Finite q1) = inr k1 ->
     n_components h w (Finite q2) = inr k2 ->
     k1 <= k2)
  /\ (exists j1 j2,
        jpeg_quality (Finite q1) = inr j1
        /\ jpeg_quality (Finite q2) = inr j2
        /\ j1 <= j2).
Proof.
  intros Hh Hw Hq. split.
  - intros k1 k2 H1 H2.
    destruct (n_components_inr _ _ _ _ H1) as (v1 & E1 & ->).
    destruct (n_components_inr _ _ _ _ H2) as (v2 & E2 & ->).
    injection E1 as <-. injection E2 as <-.
    assert (Hm : 0 <= Z.min h w) by lia.
    pose proof (int_monotone _ _ (scaled_quality_monotone _ _ _ Hm Hq)). lia.
  - eexists. eexists. split; [reflexivity |]. split; [reflexivity |].
    unfold Py.max, Py.min. pose proof (int_monotone _ _ Hq). lia.
Qed.

Lemma quality_monotone_witness :
  (forall k1 k2,
     n_components 10 20 (Finite (1 # 3)) = inr k1 ->
     n_components 10 20 (Finite (995 # 10)) = inr k2 ->
     k1 <= k2)
  /\ (exists j1 j2,
        jpeg_quality (Finite (1 # 3)) = inr j1
        /\ jpeg_quality (Finite (995 # 10)) = inr j2
        /\ j1 <= j2).
Proof.
  apply (quality_monotone 10 20 (1 # 3) (995 # 10)).
  - lia.
  - lia.
  - unfold Qle. simpl. lia.
Defined.

(** X3: a component count that is returned is 0 exactly when a
    dimension is 0, and for a finite quality 0 is then returned: the
    product with 0 is 0, and [max(1, .)] is undone by the following
    [min(., max_components)]. *)
Theorem n_components_zero_iff (h w : Z) (q : float) :
  0 <= h -> 0 <= w ->
  (forall k, n_components h w q = inr k -> (k = 0 <-> h = 0 \/ w = 0))
  /\ (h = 0 \/ w = 0 -> forall v, n_components h w (Finite v) = inr 0).
Proof.
  intros Hh Hw. split.
  - intros k Hk. now apply (n_components_zero_sized h w q).
  - intros Hz v. assert (Hm : Z.min h w = 0) by lia.
    rewrite n_components_returns; rewrite Hm.
    + reflexivity.
    + lia.
    + vm_compute. destruct v as [[| n | n] d]; discriminate.
Qed.

Lemma n_components_zero_iff_witness :
  n_components 0 640 (Finite 75) = inr 0.
Proof.
  destruct (n_components_zero_iff 0 640 (Finite 75)) as [_ H]; try lia.
  apply H. now left.
Defined.

(** X18: the selector returns a count only for a finite quality.  On an
    infinite quality the product is infinite, or undefined when
    [min(H, W)] is 0, and on a NaN it is a NaN: [int()] raises
    [OverflowError] on the first and [ValueError] on the others, for
    dimensions of at most 53 bits. *)
Theorem selector_needs_a_finite_quality (h w : Z) :
  - 2 ^ 53 < Z.min h w < 2 ^ 53 ->
  (forall q k, n_components h w q = inr k -> exists v, q = Finite v)
  /\ (forall s, Z.min h w <> 0 ->
        n_components h w (Infinity s)
        = inl (Py.OverflowError "cannot convert float infinity to integer"))
  /\ (forall s, Z.min h w = 0 ->
        n_components h w (Infinity s)
        = inl (Py.ValueError "cannot convert float NaN to integer"))
  /\ n_components h w NaN
     = inl (Py.ValueError "cannot convert float NaN to integer").
Proof.
  intros Hm. split.
  { intros q k Hk. destruct (n_components_inr _ _ _ _ Hk) as (v & E & _).
    now exists v. }
  unfold n_components, Py.int_mul_float, Py.float_div_int, Py.bind, Py.ret,
    Py.min.
  destruct (float_of_int_exact (Z.min h w) Hm) as [-> Er].
  rewrite float_of_int_100. unfold Py.float_truediv.
  rewrite round_100_nonzero. simpl mul.
  split; [| split; [| reflexivity]]; intros s Hz.
  - destruct (Qeq_bool (Float64.round (inject_Z (Z.min h w))) 0) eqn:E.
    + exfalso. apply Qeq_bool_eq in E. rewrite Er in E.
      apply Hz. unfold Qeq in E. simpl in E. lia.
    + reflexivity.
  - rewrite Hz. reflexivity.
Qed.

Lemma selector_needs_a_finite_quality_witness :
  n_components 480 640 (Infinity false)
  = inl (Py.OverflowError "cannot convert float infinity to integer")
  /\ n_components 0 640 (Infinity true)
     = inl (Py.ValueError "cannot convert float NaN to integer")
  /\ n_components 480 640 NaN
     = inl (Py.ValueError "cannot convert float NaN to integer").
Proof.
  split; [| split].
  - destruct (selector_needs_a_finite_quality 480 640) as (_ & H & _);
      [simpl; lia |]. apply H. discriminate.
  - destruct (selector_needs_a_finite_quality 0 640) as (_ & _ & H & _);
      [simpl; lia |]. apply H. reflexivity.
  - destruct (selector_needs_a_finite_quality 480 640) as (_ & _ & _ & H);
      [simpl; lia |]. exact H.
Defined.

(** ** When [compress_image] returns, and what it returns *)

Lemma Forall2_seq_exists {B} (P : nat -> B -> Prop) (s n : nat) :
  (forall c, (c < n)%nat -> exists y, P (s + c)%nat y) ->
  exists ys, Forall2 P (seq s n) ys.
Proof.
  revert s. induction n as [| n IH]; intros s H.
  - exists []. constructor.
  - destruct (H 0%nat ltac:(lia)) as [y Hy]. rewrite Nat.add_0_r in Hy.
    destruct (IH (S s)) as [ys Hys].
    + intros c Hc. destruct (H (S c) ltac:(lia)) as [y' Hy'].
      exists y'. now replace (S s + c)%nat with (s + S c)%nat by lia.
    + exists (y :: ys). simpl. now constructor.
Qed.

Lemma Forall2_in_r {A B} (P : A -> B -> Prop) (xs : list A) (ys : list B)
    (y : B) :
  Forall2 P xs ys -> In y ys -> exists x, P x y.
Proof.
  induction 1 as [| x y' xs ys Hxy _ IH]; intros Hin.
  - destruct Hin.
  - destruct Hin as [<- | Hin]; [now exists x | now apply IH].
Qed.

Lemma get_channel_inr {A} (d : A) (a : ndarray A) (h w ch c : nat) :
  shape a = [h; w; ch] -> (c < ch)%nat ->
  get_channel d a c
  = inr (Matrix h w (map (fun idx => nth (idx * ch + c) (data a) d)
                         (seq 0 (h * w)))).
Proof.
  intros Hs Hc. unfold get_channel. rewrite Hs.
  apply Nat.ltb_lt in Hc. now rewrite Hc.
Qed.

Lemma stack_same_shape (arrays : list (matrix Q)) (h w : nat) :
  arrays <> [] ->
  (forall m, In m arrays -> nrows m = h /\ ncols m = w) ->
  exists s, stack arrays = inr s.
Proof.
  intros Hne Hd. unfold stack. destruct arrays as [| first rest];
    [congruence |].
  assert (E : forallb (same_shape first) (first :: rest) = true).
  { apply forallb_forall. intros m Hm.
    destruct (Hd first (or_introl eq_refl)) as [E1 E2].
    destruct (Hd m Hm) as [E3 E4].
    unfold same_shape. rewrite E1, E2, E3, E4. now rewrite !Nat.eqb_refl. }
  rewrite E. eexists. reflexivity.
Qed.

Section Progress.

Context {pillow : Pillow} {sklearn : Sklearn}.

Lemma reconstruction_functional (a : ndarray Z) (k : Z) (c : nat)
    (r1 r2 : matrix Q) :
  reconstruction a k c r1 -> reconstruction a k c r2 -> r1 = r2.
Proof.
  intros (d1 & p1 & e1 & Hg1 & Hf1 & Hi1) (d2 & p2 & e2 & Hg2 & Hf2 & Hi2).
  rewrite Hg2 in Hg1. injection Hg1 as <-.
  rewrite Hf2 in Hf1. injection Hf1 as <- <-.
  rewrite Hi2 in Hi1. now injection Hi1.
Qed.

Lemma reconstruction_shape (a : ndarray Z) (k : Z) (h w ch c : nat)
    (rec : matrix Q) :
  keeps_shape -> shape a = [h; w; ch] -> (c < ch)%nat ->
  reconstruction a k c rec -> nrows rec = h /\ ncols rec = w.
Proof.
  intros Hkeep Hs Hc (chan & pca & red & Hg & Hf & Hi).
  rewrite (get_channel_inr 0 a h w ch c Hs Hc) in Hg. injection Hg as <-.
  exact (Hkeep _ _ _ _ _ Hf Hi).
Qed.

(** The loop and the stack succeed on reconstructions of one shape. *)
Lemma compress_array_of_reconstructions (a : ndarray Z) (q : float)
    (h w ch h' w' : nat) (k : Z) (recs : list (matrix Q)) :
  shape a = [h; w; ch] -> (1 <= ch)%nat ->
  n_components (Z.of_nat h) (Z.of_nat w) q = inr k ->
  Forall2 (fun c rec =>
             reconstruction a k c rec /\ nrows rec = h' /\ ncols rec = w')
          (seq 0 ch) recs ->
  exists out, compress_array a q = inr out.
Proof.
  intros Hs Hch Hk Hall. unfold compress_array. rewrite Hs. simpl.
  rewrite Hk. simpl.
  rewrite (for_each_all _ _ [] (map (fun r => clip r 0 255) recs)).
  - simpl. unfold Py.bind.
    assert (Hstack : exists s,
              stack (map (fun r => clip r 0 255) recs) = inr s).
    { apply (stack_same_shape _ h' w').
      - destruct recs; [| discriminate].
        inversion Hall as [E |]. destruct ch; [lia | discriminate].
      - intros m Hm. apply in_map_iff in Hm as (r & <- & Hr).
        destruct (Forall2_in_r _ _ _ _ Hall Hr) as (c & _ & Hd).
        exact Hd. }
    destruct Hstack as [s ->]. eexists. reflexivity.
  - clear Hch. induction Hall as [| c rec cs recs' [Hrec _] _ IH];
      simpl; constructor; [| exact IH].
    apply process_channel_inr. now exists rec.
Qed.

(** X4: under the shape contract of [inverse_transform], and for an array
    that unpacks into height, width and at least one channel,
    [compress_image] returns an image exactly when the selector returns a
    count (which it does not on a product that overflows, an infinity or
    a NaN) and the transform of every channel succeeds with that count:
    nothing else in it can fail. *)
Theorem compress_succeeds_iff (img : pil_image) (q : float) (h w ch : nat) :
  keeps_shape ->
  shape (load_rgb_array img) = [h; w; ch] ->
  (1 <= ch)%nat ->
  ((exists out, compress_image img q = inr out) <->
   exists k,
     n_components (Z.of_nat h) (Z.of_nat w) q = inr k
     /\ forall c, (c < ch)%nat ->
          exists rec, reconstruction (load_rgb_array img) k c rec).
Proof.
  intros Hkeep Hs Hch. rewrite compress_image_body. split.
  - intros [out Hout].
    destruct (compress_array_channels _ _ _ Hout)
      as (h0 & w0 & ch0 & h' & w' & k & Hs0 & Hk & _ & _ & _ & _ & _ & Hall).
    rewrite Hs in Hs0. injection Hs0 as <- <- <-.
    exists k. split; [exact Hk |]. intros c Hc.
    destruct (Hall c Hc) as (rec & Hrec & _). now exists rec.
  - intros (k & Hk & Hall).
    destruct (Forall2_seq_exists
                (fun c rec =>
                   reconstruction (load_rgb_array img) k c rec
                   /\ nrows rec = h /\ ncols rec = w) 0 ch) as [recs Hrecs].
    + intros c Hc. destruct (Hall c Hc) as [rec Hrec]. exists rec.
      split; [exact Hrec |].
      exact (reconstruction_shape _ _ h w ch c rec Hkeep Hs Hc Hrec).
    + now apply (compress_array_of_reconstructions _ _ h w ch h w k recs).
Qed.

End Progress.

Lemma compress_succeeds_iff_witness :
  (exists out,
     Reference.compress_image Reference.bands_3x3 Reference.q50 = inr out)
  <-> exists k,
        n_components (Z.of_nat 3) (Z.of_nat 3) Reference.q50 = inr k
        /\ forall c, (c < 3)%nat ->
             exists rec,
               @reconstruction Reference.sklearn
                 (@load_rgb_array Reference.pillow Reference.bands_3x3)
                 k c rec.
Proof.
  apply (@compress_succeeds_iff Reference.pillow Reference.sklearn
           Reference.bands_3x3 Reference.q50 3 3 3).
  - apply spec_pca_keeps_shape.
  - reflexivity.
  - lia.
Defined.

(** The overflow of line 31 is a failure of its own: on the flat image at
    the quality 1e308 there is no count and no image, whatever the
    decomposition would do. *)
Example flat_image_overflows :
  Reference.compress_image Reference.flat_4x4 Reference.q1e308
  = inl (Py.OverflowError "cannot convert float infinity to integer").
Proof. vm_compute. reflexivity. Qed.

(** ** Slicing into channels and stacking them back *)

Lemma ndarray_channels_ext {A} (d : A) (a b : ndarray A) (h w ch : nat) :
  shape a = [h; w; ch] -> shape b = [h; w; ch] ->
  List.length (data a) = (h * w * ch)%nat ->
  List.length (data b) = (h * w * ch)%nat ->
  (forall c, (c < ch)%nat -> get_channel d a c = get_channel d b c) ->
  a = b.
Proof.
  intros Hsa Hsb Hla Hlb Hch. destruct a as [sa da], b as [sb db].
  simpl in *. subst sa sb. f_equal. apply (nth_ext _ _ d d); [lia |].
  intros n Hn. rewrite Hla in Hn.
  assert (Hpos : (0 < ch)%nat) by nia.
  assert (Hc : (n mod ch < ch)%nat) by (apply Nat.mod_upper_bound; lia).
  assert (Hp : (n / ch < h * w)%nat)
    by (apply Nat.Div0.div_lt_upper_bound; nia).
  assert (En : n = (n / ch * ch + n mod ch)%nat)
    by (rewrite Nat.mul_comm; apply Nat.div_mod_eq).
  specialize (Hch _ Hc).
  rewrite (get_channel_inr d (NdArray [h; w; ch] da) h w ch _ eq_refl Hc),
          (get_channel_inr d (NdArray [h; w; ch] db) h w ch _ eq_refl Hc)
    in Hch.
  injection Hch as Hch. simpl in Hch.
  apply (f_equal (fun l => nth (n / ch) l d)) in Hch.
  rewrite !nth_map_seq in Hch by exact Hp. now rewrite En.
Qed.

Lemma channel_of_bytes (a : ndarray Z) (h w ch c : nat) :
  Forall (fun v => 0 <= v <= 255) (data a) ->
  Forall (fun v => 0 <= v <= 255)
    (map (fun idx => nth (idx * ch + c) (data a) 0) (seq 0 (h * w))).
Proof.
  intros Hb. apply Forall_forall. intros v Hv.
  apply in_map_iff in Hv as (idx & <- & _).
  destruct (nth_in_or_default (idx * ch + c) (data a) 0) as [Hin | ->];
    [| lia].
  rewrite Forall_forall in Hb. now apply Hb.
Qed.

Section RoundTrip.

Context {pillow : Pillow} {sklearn : Sklearn}.

Lemma compress_exact_channels (a : ndarray Z) (q : float) (h w ch : nat)
    (k : Z) :
  shape a = [h; w; ch] -> (1 <= ch)%nat ->
  List.length (data a) = (h * w * ch)%nat ->
  Forall (fun v => 0 <= v <= 255) (data a) ->
  n_components (Z.of_nat h) (Z.of_nat w) q = inr k ->
  (forall c, (c < ch)%nat ->
     exists rec,
       reconstruction a k c rec
       /\ nrows rec = h /\ ncols rec = w
       /\ forall i j, (i < h)%nat -> (j < w)%nat ->
            (get 0 rec i j
             == inject_Z (nth ((i * w + j) * ch + c) (data a) 0%Z))%Q) ->
  compress_array a q = inr (fromarray a "RGB").
Proof.
  intros Hs Hch Hlen Hbytes Hk Hexact.
  destruct (Forall2_seq_exists
              (fun c rec => reconstruction a k c rec
                            /\ nrows rec = h /\ ncols rec = w) 0 ch)
    as [recs Hrecs].
  { intros c Hc. destruct (Hexact c Hc) as (rec & Hrec & Hr & Hcl & _).
    now exists rec. }
  destruct (compress_array_of_reconstructions a q h w ch h w k recs Hs Hch
              Hk Hrecs) as [out Hout].
  rewrite Hout.
  destruct (compress_array_channels _ _ _ Hout)
    as (h0 & w0 & ch0 & h' & w' & k0 & Hs0 & Hk0 & Hmode & Hso & Hlo & _ & _
        & Hall).
  rewrite Hs in Hs0. injection Hs0 as <- <- <-.
  rewrite Hk in Hk0. injection Hk0 as <-.
  assert (Hdims : h' = h /\ w' = w).
  { destruct (Hall 0%nat ltac:(lia)) as (r' & Hr' & E1 & E2 & _).
    destruct (Hexact 0%nat ltac:(lia)) as (r & Hr & E3 & E4 & _).
    rewrite (reconstruction_functional _ _ _ _ _ Hr' Hr) in E1, E2. lia. }
  destruct Hdims as [-> ->].
  assert (E : pixels out = a).
  { apply (ndarray_channels_ext 0 _ _ h w ch); try assumption.
    intros c Hc.
    destruct (Hall c Hc) as (r' & Hr' & _ & _ & ->).
    destruct (Hexact c Hc) as (r & Hr & E3 & E4 & Hget).
    rewrite (reconstruction_functional _ _ _ _ _ Hr' Hr).
    rewrite (get_channel_inr 0 a h w ch c Hs Hc). f_equal.
    apply quantise_exact.
    - unfold well_formed. simpl. now rewrite length_map, length_seq.
    - simpl. now apply channel_of_bytes.
    - exact E3.
    - exact E4.
    - simpl. intros i j Hi Hj. rewrite (Hget i j Hi Hj).
      unfold get at 1. simpl.
      now rewrite nth_map_seq by (now apply grid_index). }
  destruct out as [m p]. simpl in *. now subst.
Qed.

(** X5: slicing an image into channels and stacking the channels back is
    the identity, and the clip and the cast keep bytes: when the transform
    reproduces every channel of an RGB image of bytes, with the count the
    selector returns, [compress_image] returns that very image. *)
Theorem exact_channels_round_trip (img : pil_image) (q : float)
    (h w ch : nat) (k : Z) :
  mode img = "RGB"%string ->
  shape (pixels img) = [h; w; ch] -> (1 <= ch)%nat ->
  List.length (data (pixels img)) = (h * w * ch)%nat ->
  Forall (fun v => 0 <= v <= 255) (data (pixels img)) ->
  n_components (Z.of_nat h) (Z.of_nat w) q = inr k ->
  (forall c, (c < ch)%nat ->
     exists rec,
       reconstruction (pixels img) k c rec
       /\ nrows rec = h /\ ncols rec = w
       /\ forall i j, (i < h)%nat -> (j < w)%nat ->
            (get 0 rec i j
             == inject_Z (nth ((i * w + j) * ch + c)
                              (data (pixels img)) 0%Z))%Q) ->
  compress_image img q = inr img.
Proof.
  intros Hm Hs Hch Hlen Hb Hk Hexact. rewrite compress_image_body.
  unfold load_rgb_array. rewrite Hm. simpl. unfold np_array.
  rewrite (compress_exact_channels _ q h w ch k Hs Hch Hlen Hb Hk Hexact).
  destruct img as [m p]. simpl in Hm. now subst.
Qed.

End RoundTrip.

(** On the decomposition of the specification, an image whose rows are all
    equal is reproduced. *)
Lemma spec_pca_flat_channels (dirs : matrix Q -> nat -> nat -> nat -> Q)
    (a : ndarray Z) (k : Z) (h w : nat) :
  shape a = [h; w; 3%nat] -> (1 <= h)%nat -> (1 <= w)%nat ->
  0 <= k <= Z.of_nat (Nat.min h w) ->
  (forall c i j, (c < 3)%nat -> (i < h)%nat -> (j < w)%nat ->
     nth ((i * w + j) * 3 + c) (data a) 0 = nth (j * 3 + c) (data a) 0) ->
  forall c, (c < 3)%nat ->
    exists rec,
      @reconstruction (SpecPCA.sklearn dirs) a k c rec
      /\ nrows rec = h /\ ncols rec = w
      /\ forall i j, (i < h)%nat -> (j < w)%nat ->
           (get 0 rec i j
            == inject_Z (nth ((i * w + j) * 3 + c) (data a) 0%Z))%Q.
Proof.
  intros Hs Hh Hw Hk Hflat c Hc.
  set (X := Matrix h w (map (fun idx => nth (idx * 3 + c) (data a) 0)
                            (seq 0 (h * w)))).
  assert (HX : forall i j, (i < h)%nat -> (j < w)%nat ->
             get 0 X i j = nth ((i * w + j) * 3 + c) (data a) 0).
  { intros i j Hi Hj. unfold get, X. simpl.
    now rewrite nth_map_seq by (now apply grid_index). }
  destruct (spec_pca_zero_variance dirs k X) as
    (pca & red & rec & Hf & Hi & Hr & Hcl & Hget); try assumption.
  { intros i j Hi Hj. simpl in Hi, Hj.
    rewrite !HX by (assumption || lia). now apply Hflat. }
  exists rec. split.
  - exists X, pca, red. split; [| split]; try assumption.
    now apply get_channel_inr.
  - split; [exact Hr |]. split; [exact Hcl |].
    intros i j Hi' Hj'. rewrite (Hget i j Hi' Hj'). now rewrite HX.
Qed.

(** X6: on the decomposition of the specification, whatever directions it
    picks, a non-empty RGB image of bytes whose rows are all equal (for
    one, an image of a single colour) comes back from [compress_image]
    unchanged, at every quality for which the selector returns a count:
    every finite quality whose product with [min(H, W)] is within the
    range of the floats. *)
Theorem flat_image_unchanged {pillow : Pillow}
    (dirs : matrix Q -> nat -> nat -> nat -> Q)
    (img : pil_image) (h w : nat) :
  mode img = "RGB"%string ->
  shape (pixels img) = [h; w; 3%nat] -> (1 <= h)%nat -> (1 <= w)%nat ->
  List.length (data (pixels img)) = (h * w * 3)%nat ->
  Forall (fun v => 0 <= v <= 255) (data (pixels img)) ->
  (forall c i j, (c < 3)%nat -> (i < h)%nat -> (j < w)%nat ->
     nth ((i * w + j) * 3 + c) (data (pixels img)) 0
     = nth (j * 3 + c) (data (pixels img)) 0) ->
  (forall q k,
     n_components (Z.of_nat h) (Z.of_nat w) q = inr k ->
     @compress_image pillow (SpecPCA.sklearn dirs) img q = inr img)
  /\ (forall v,
        Z.of_nat (Nat.min h w) < 2 ^ 53 ->
        (Qabs (inject_Z (Z.of_nat (Nat.min h w)) * v) <= max_float)%Q ->
        @compress_image pillow (SpecPCA.sklearn dirs) img (Finite v)
        = inr img).
Proof.
  intros Hm Hs Hh Hw Hlen Hb Hflat.
  assert (Hrun : forall q k,
     n_components (Z.of_nat h) (Z.of_nat w) q = inr k ->
     @compress_image pillow (SpecPCA.sklearn dirs) img q = inr img).
  { intros q k Hk. rewrite compress_image_body.
    unfold load_rgb_array. rewrite Hm. simpl. unfold np_array.
    assert (Hr : 0 <= k <= Z.of_nat (Nat.min h w)).
    { pose proof (n_components_range (Z.of_nat h) (Z.of_nat w) q k
                    ltac:(lia) ltac:(lia) Hk). lia. }
    rewrite (@compress_exact_channels (SpecPCA.sklearn dirs) _ q h w 3 k Hs
               ltac:(lia) Hlen Hb Hk
               (spec_pca_flat_channels dirs _ k h w Hs Hh Hw Hr Hflat)).
    destruct img as [m p]. simpl in Hm. now subst. }
  split; [exact Hrun |].
  intros v Hsmall Hv. rewrite Nat2Z.inj_min in Hsmall, Hv.
  eapply Hrun. apply n_components_returns; [lia | exact Hv].
Qed.

Lemma flat_image_unchanged_witness :
  Reference.compress_image Reference.flat_4x4 Reference.q50
  = inr Reference.flat_4x4.
Proof.
  destruct (@flat_image_unchanged Reference.pillow Reference.axis_directions
              Reference.flat_4x4 4 4) as [_ Hrun].
  - reflexivity.
  - reflexivity.
  - lia.
  - lia.
  - reflexivity.
  - vm_compute. repeat constructor; discriminate.
  - intros c i j Hc Hi Hj.
    assert (Ec : (c = 0 \/ c = 1 \/ c = 2)%nat) by lia.
    assert (Ei : (i = 0 \/ i = 1 \/ i = 2 \/ i = 3)%nat) by lia.
    assert (Ej : (j = 0 \/ j = 1 \/ j = 2 \/ j = 3)%nat) by lia.
    destruct Ec as [-> | [-> | ->]];
    destruct Ei as [-> | [-> | [-> | ->]]];
    destruct Ej as [-> | [-> | [-> | ->]]]; reflexivity.
  - apply (Hrun 50%Q); [simpl; lia | vm_compute; discriminate].
Defined.

Lemma exact_channels_round_trip_witness :
  Reference.compress_image Reference.pixel_1x1 (Finite 30)
  = inr Reference.pixel_1x1.
Proof.
  apply (@exact_channels_round_trip Reference.pillow Reference.sklearn
           Reference.pixel_1x1 (Finite 30) 1 1 3 1).
  - reflexivity.
  - reflexivity.
  - lia.
  - reflexivity.
  - simpl. repeat constructor; lia.
  - vm_compute. reflexivity.
  - apply (spec_pca_flat_channels Reference.axis_directions
             (pixels Reference.pixel_1x1) 1 1 1);
      try (simpl; lia); try reflexivity.
    intros c i j Hc Hi Hj.
    assert (Ei : i = 0%nat) by lia. assert (Ej : j = 0%nat) by lia.
    now subst.
Defined.

(** ** Quality 100: the full rank *)

Lemma n_components_100 (h w : Z) :
  1 <= h -> 1 <= w -> 100 * Z.min h w < 2 ^ 53 ->
  n_components h w (Finite 100) = inr (Z.min h w).
Proof.
  intros Hh Hw Hm.
  assert (Hr : (Qabs (inject_Z (Z.min h w) * 100) <= max_float)%Q).
  { apply percentage_in_range; [lia | discriminate | apply Qle_refl]. }
  rewrite (n_components_clamp h w 100 Hh Hw ltac:(lia) Hr). f_equal.
  pose proof (Qfloor_resp_le _ _
                (scaled_full (Z.min h w) 100 ltac:(lia) (Qle_refl 100)))
    as Hf.
  rewrite Qfloor_Z in Hf. unfold clamp. lia.
Qed.

(** A reconstruction within one unit of a byte is stored within one unit
    of it. *)
Lemma within_one (x : Z) (v : Q) :
  0 <= x <= 255 -> (Qabs (v - inject_Z x) <= 1)%Q ->
  Z.abs (uint8_of_float (clip1 v 0 255) - x) <= 1.
Proof.
  intros Hx Hv. apply Qabs_Qle_condition in Hv as [L U].
  destruct (uint8_of_clipped v) as [-> _].
  assert (Hlo : (inject_Z (x - 1) <= v)%Q)
    by (unfold Z.sub; rewrite inject_Z_plus;
        change (inject_Z (- (1))) with (-1 # 1)%Q; lra).
  assert (Hhi : (v <= inject_Z (x + 1))%Q)
    by (rewrite inject_Z_plus; change (inject_Z 1) with 1%Q; lra).
  destruct (clip1_cases v) as [[H0 E] | [[H255 E] | (H0 & H255 & E)]].
  - rewrite E. change (Qfloor 0) with 0.
    assert (x < 1).
    { apply Z.lt_nge. intros C.
      assert ((1 <= inject_Z x)%Q)
        by (change 1%Q with (inject_Z 1); now rewrite <- Zle_Qle).
      lra. }
    lia.
  - rewrite E. change (Qfloor 255) with 255.
    assert (254 < x).
    { apply Z.lt_nge. intros C.
      assert ((inject_Z x <= 254)%Q)
        by (change 254%Q with (inject_Z 254); now rewrite <- Zle_Qle).
      lra. }
    lia.
  - rewrite (Qfloor_comp _ _ E).
    pose proof (Qfloor_resp_le _ _ Hlo) as F1.
    pose proof (Qfloor_resp_le _ _ Hhi) as F2.
    rewrite Qfloor_Z in F1, F2. lia.
Qed.

Lemma nth_byte (l : list Z) (n : nat) :
  Forall (fun v => 0 <= v <= 255) l -> 0 <= nth n l 0 <= 255.
Proof.
  intros Hb. destruct (nth_in_or_default n l 0) as [Hin | ->]; [| lia].
  rewrite Forall_forall in Hb. now apply Hb.
Qed.

Section FullRank.

Context {pillow : Pillow} {sklearn : Sklearn}.

(** One pass at quality 100 over a three-channel array of bytes. *)
Lemma full_rank_pass (a : ndarray Z) (h w : nat) :
  keeps_shape -> accurate_at_full_rank h w ->
  shape a = [h; w; 3%nat] -> (1 <= h)%nat -> (1 <= w)%nat ->
  100 * Z.of_nat (Nat.min h w) < 2 ^ 53 ->
  Forall (fun v => 0 <= v <= 255) (data a) ->
  exists out,
    compress_array a (Finite 100) = inr out
    /\ mode out = "RGB"%string
    /\ shape (pixels out) = [h; w; 3%nat]
    /\ Forall (fun v => 0 <= v <= 255) (data (pixels out))
    /\ forall c i j, (c < 3)%nat -> (i < h)%nat -> (j < w)%nat ->
         Z.abs (nth ((i * w + j) * 3 + c) (data (pixels out)) 0
                - nth ((i * w + j) * 3 + c) (data a) 0) <= 1.
Proof.
  intros Hkeep Hacc Hs Hh Hw Hsmall Hbytes.
  set (k := Z.of_nat (Nat.min h w)).
  assert (Hk : n_components (Z.of_nat h) (Z.of_nat w) (Finite 100) = inr k).
  { unfold k. rewrite Nat2Z.inj_min. apply n_components_100; lia. }
  assert (Hchan : forall c, (c < 3)%nat ->
    exists rec,
      reconstruction a k c rec
      /\ nrows rec = h /\ ncols rec = w
      /\ forall i j, (i < h)%nat -> (j < w)%nat ->
           (Qabs (get 0 rec i j
                  - inject_Z (nth ((i * w + j) * 3 + c) (data a) 0%Z)) <= 1)%Q).
  { intros c Hc.
    set (X := Matrix h w (map (fun idx => nth (idx * 3 + c) (data a) 0)
                              (seq 0 (h * w)))).
    destruct (Hacc X eq_refl eq_refl) as (pca & red & rec & Hf & Hi & Hget).
    { simpl. now apply channel_of_bytes. }
    destruct (Hkeep _ _ _ _ _ Hf Hi) as [Hr Hcl]. simpl in Hr, Hcl.
    exists rec. split; [| split; [exact Hr | split; [exact Hcl |]]].
    - exists X, pca, red. split; [| split]; try assumption.
      now apply get_channel_inr.
    - intros i j Hi' Hj'. specialize (Hget i j Hi' Hj').
      unfold get at 2 in Hget. unfold X in Hget. simpl in Hget.
      now rewrite nth_map_seq in Hget by (now apply grid_index). }
  destruct (Forall2_seq_exists
              (fun c rec => reconstruction a k c rec
                            /\ nrows rec = h /\ ncols rec = w) 0 3)
    as [recs Hrecs].
  { intros c Hc. destruct (Hchan c Hc) as (rec & Hrec & Hr & Hcl & _).
    now exists rec. }
  destruct (compress_array_of_reconstructions a (Finite 100) h w 3 h w k recs
              Hs ltac:(lia) Hk Hrecs) as [out Hout].
  exists out. split; [exact Hout |].
  destruct (compress_array_channels _ _ _ Hout)
    as (h0 & w0 & ch0 & h' & w' & k0 & Hs0 & Hk0 & Hmode & Hso & _ & _ & Hbo
        & Hall).
  rewrite Hs in Hs0. injection Hs0 as <- <- <-.
  rewrite Hk in Hk0. injection Hk0 as <-.
  assert (Hdims : h' = h /\ w' = w).
  { destruct (Hall 0%nat ltac:(lia)) as (r' & Hr' & E1 & E2 & _).
    destruct (Hchan 0%nat ltac:(lia)) as (r & Hr & E3 & E4 & _).
    rewrite (reconstruction_functional _ _ _ _ _ Hr' Hr) in E1, E2. lia. }
  destruct Hdims as [-> ->].
  split; [exact Hmode |]. split; [exact Hso |]. split; [exact Hbo |].
  intros c i j Hc Hi Hj.
  destruct (Hall c Hc) as (r' & Hr' & E1 & E2 & Hg).
  destruct (Hchan c Hc) as (r & Hr & _ & _ & Hget).
  rewrite (reconstruction_functional _ _ _ _ _ Hr' Hr) in *.
  rewrite <- (get_channel_get 0 (pixels out) h w 3 c (quantise r) i j
                Hso Hg Hi Hj).
  rewrite get_quantise by lia.
  apply within_one; [now apply nth_byte | now apply Hget].
Qed.

(** C5: on a non-empty three-channel image of bytes, quality 100 selects
    [k = min(H, W)], the full rank.  Under the accuracy of the
    decomposition at full rank (the reconstruction of a channel of bytes
    is within one unit of the channel) [compress_image] at quality 100
    returns an image of the same dimensions whose every value is within
    one intensity unit of the input, and applying it again to that image
    returns an image within one intensity unit of it: quality 100 is a
    near-fixed-point. *)
Theorem full_rank_near_fixed_point (img : pil_image) (H W : nat) :
  keeps_shape -> accurate_at_full_rank H W ->
  mode img = "RGB"%string ->
  shape (pixels img) = [H; W; 3%nat] -> (1 <= H)%nat -> (1 <= W)%nat ->
  100 * Z.of_nat (Nat.min H W) < 2 ^ 53 ->
  Forall (fun v => 0 <= v <= 255) (data (pixels img)) ->
  n_components (Z.of_nat H) (Z.of_nat W) (Finite 100)
  = inr (Z.min (Z.of_nat H) (Z.of_nat W))
  /\ exists out again,
       compress_image img (Finite 100) = inr out
       /\ compress_image out (Finite 100) = inr again
       /\ shape (pixels out) = [H; W; 3%nat]
       /\ shape (pixels again) = [H; W; 3%nat]
       /\ forall c i j, (c < 3)%nat -> (i < H)%nat -> (j < W)%nat ->
            let at_ (x : pil_image) :=
              nth ((i * W + j) * 3 + c) (data (pixels x)) 0 in
            0 <= at_ out <= 255
            /\ Z.abs (at_ out - at_ img) <= 1
            /\ Z.abs (at_ again - at_ out) <= 1.
Proof.
  intros Hkeep Hacc Hmode Hs HH HW Hsmall Hbytes. split.
  { apply n_components_100; lia. }
  destruct (full_rank_pass (pixels img) H W Hkeep Hacc Hs HH HW Hsmall Hbytes)
    as (out & Hout & Hm1 & Hs1 & Hb1 & Hnear1).
  destruct (full_rank_pass (pixels out) H W Hkeep Hacc Hs1 HH HW Hsmall Hb1)
    as (again & Hagain & Hm2 & Hs2 & Hb2 & Hnear2).
  exists out, again. rewrite !compress_image_body.
  unfold load_rgb_array. rewrite Hmode, Hm1. simpl. unfold np_array.
  repeat split; try assumption.
  - now apply nth_byte.
  - now apply nth_byte.
  - now apply Hnear1.
  - now apply Hnear2.
Qed.

End FullRank.

(** With as many coordinate axes as columns the decomposition of the
    specification reproduces the matrix. *)
Lemma sumQ_delta (n : nat) (f : nat -> Q) (j : nat) :
  (j < n)%nat ->
  (SpecPCA.sumQ n (fun t => f t * (if (t =? j)%nat then 1 else 0)) == f j)%Q.
Proof.
  unfold SpecPCA.sumQ. intros Hj.
  assert (G : forall s m, (s <= j < s + m)%nat ->
    (fold_right (fun i acc => f i * (if (i =? j)%nat then 1 else 0) + acc) 0
       (seq s m) == f j)%Q
    /\ forall s', (j < s')%nat ->
       (fold_right (fun i acc => f i * (if (i =? j)%nat then 1 else 0) + acc)
          0 (seq s' m) == 0)%Q).
  { intros s m. revert s. induction m as [| m IH]; intros s Hs; [lia |].
    assert (Hzero : forall m' s', (j < s')%nat ->
      (fold_right (fun i acc => f i * (if (i =? j)%nat then 1 else 0) + acc)
         0 (seq s' m') == 0)%Q).
    { induction m' as [| m' IH']; intros s' Hs'; simpl; [reflexivity |].
      rewrite IH' by lia.
      destruct (Nat.eqb_spec s' j); [lia | ring]. }
    split; [| intros s' Hs'; now apply Hzero].
    simpl. destruct (Nat.eqb_spec s j) as [-> | N].
    - rewrite Hzero by lia. ring.
    - destruct (IH (S s)) as [E _]; [lia |]. rewrite E. ring. }
  destruct (G 0%nat n) as [E _]; [lia | exact E].
Qed.

Lemma axis_directions_full_rank (h w : nat) :
  (w <= h)%nat -> (1 <= w)%nat ->
  @accurate_at_full_rank Reference.sklearn h w.
Proof.
  intros Hwh Hw X Hr Hc _. subst h w.
  assert (Hmin : Nat.min (nrows X) (ncols X) = ncols X) by lia.
  rewrite Hmin.
  destruct (spec_pca_fit_inr Reference.axis_directions
              (Z.of_nat (ncols X)) X)
    as (pca & red & rec & Hf & Hi & _ & _ & _ & Hget); try lia.
  exists pca, red, rec. split; [exact Hf |]. split; [exact Hi |].
  intros i j Hi' Hj'.
  destruct (Hget i j Hi' Hj') as (E & Emean & Ered).
  rewrite Nat2Z.id in E, Ered.
  assert (Hdir : forall t j', (t < ncols X)%nat -> (j' < ncols X)%nat ->
            get 0%Q (SpecPCA.components_ pca) t j'
            = if (t =? j')%nat then 1%Q else 0%Q).
  { intros t j' Ht Hj''. unfold SpecPCA.fit in Hf.
    destruct ((nrows X =? 0)%nat || (ncols X =? 0)%nat)%bool;
      [discriminate |].
    destruct (negb ((0 <=? Z.of_nat (ncols X))
                    && (Z.of_nat (ncols X)
                        <=? Z.of_nat (Nat.min (nrows X) (ncols X)))));
      [discriminate |].
    unfold Py.ret in Hf. injection Hf as <- _. simpl.
    rewrite Nat2Z.id. now rewrite get_tabulate. }
  assert (Erec : (get 0 rec i j == inject_Z (get 0%Z X i j))%Q).
  { rewrite E.
    rewrite (sumQ_ext _ _ (fun t => get 0 red i t
                                    * (if (t =? j)%nat then 1 else 0))%Q).
    - rewrite sumQ_delta by exact Hj'. rewrite (Ered j Hj').
      rewrite (sumQ_ext _ _
                 (fun j' => (inject_Z (get 0%Z X i j')
                             - nth j' (SpecPCA.mean_ pca) 0)
                            * (if (j' =? j)%nat then 1 else 0))%Q).
      + rewrite sumQ_delta by exact Hj'. ring.
      + intros j' Hj''. rewrite (Hdir j j') by assumption.
        rewrite (Nat.eqb_sym j j'). reflexivity.
    - intros t Ht. now rewrite (Hdir t j Ht Hj'). }
  rewrite Erec.
  assert (Z0 : (inject_Z (get 0%Z X i j) - inject_Z (get 0%Z X i j) == 0)%Q)
    by ring.
  rewrite Z0. discriminate.
Qed.

Lemma full_rank_near_fixed_point_witness :
  n_components (Z.of_nat 3) (Z.of_nat 3) (Finite 100)
  = inr (Z.min (Z.of_nat 3) (Z.of_nat 3))
  /\ exists out again,
       Reference.compress_image Reference.bands_3x3 (Finite 100) = inr out
       /\ Reference.compress_image out (Finite 100) = inr again.
Proof.
  destruct (@full_rank_near_fixed_point Reference.pillow Reference.sklearn
              Reference.bands_3x3 3 3)
    as (Hk & out & again & Hout & Hagain & _).
  - apply spec_pca_keeps_shape.
  - apply axis_directions_full_rank; lia.
  - reflexivity.
  - reflexivity.
  - lia.
  - lia.
  - simpl. lia.
  - vm_compute. repeat constructor; discriminate.
  - split; [exact Hk |]. exists out, again.
    split; [exact Hout | exact Hagain].
Defined.

(** At quality 100 the example image comes back as it is. *)
Example bands_3x3_full_rank :
  Reference.compress_image Reference.bands_3x3 Reference.q100
  = inr Reference.bands_3x3.
Proof. vm_compute. reflexivity. Qed.

(** ** [compress_image] and [compress_image_alternative] on files *)

Section FileFacts.

Context {pillow : Pillow} {sklearn : Sklearn} {files : ImageFiles}.

(** X7: if the image cannot be opened, or the transform raises, then
    [compress_image] on files raises that same exception and leaves every
    file as it was; no output file is written.  When [save] writes only
    under its path, no run changes any file other than the output path. *)
Theorem compress_image_file_effects (fs : Os.filesystem)
    (image_path output_path : string) (q : float) :
  (forall e, image_open fs image_path = inl e ->
     compress_image_file fs image_path q output_path = (fs, inl e))
  /\ (forall img e,
        image_open fs image_path = inr img ->
        compress_image img q = inl e ->
        compress_image_file fs image_path q output_path = (fs, inl e))
  /\ (save_writes_its_path ->
      forall p, p <> output_path ->
        fst (compress_image_file fs image_path q output_path) p = fs p).
Proof.
  unfold compress_image_file. split; [| split].
  - intros e ->. reflexivity.
  - intros img e -> He. rewrite compress_image_body in He. now rewrite He.
  - intros Hsave p Hp.
    destruct (image_open fs image_path) as [e | img]; [reflexivity |].
    destruct (compress_array (load_rgb_array img) q) as [e | out];
      [reflexivity |].
    destruct (jpeg_quality q) as [e | quality]; [reflexivity |].
    specialize (Hsave fs out output_path "JPEG"%string quality true p Hp).
    destruct (image_save fs out output_path "JPEG" quality true)
      as [fs' [e | u]]; exact Hsave.
Qed.


End FileFacts.

Lemma reference_save_writes_its_path :
  @save_writes_its_path ReferenceFiles.image_files.
Proof.
  intros fs img path format quality optimize p Hp. simpl.
  unfold ReferenceFiles.image_save, Os.write. simpl.
  apply String.eqb_neq in Hp. now rewrite Hp.
Qed.

Lemma compress_image_file_effects_witness :
  fst (@compress_image_file Reference.pillow Reference.sklearn
         ReferenceFiles.image_files
         (Os.write ReferenceFiles.no_files "in.raw" "abc")
         "in.raw" Reference.q50 "out.jpg") "in.raw"%string
  = Some "abc"%string.
Proof.
  destruct (@compress_image_file_effects Reference.pillow Reference.sklearn
              ReferenceFiles.image_files
              (Os.write ReferenceFiles.no_files "in.raw" "abc")
              "in.raw" "out.jpg" Reference.q50) as (_ & _ & Hframe).
  rewrite (Hframe reference_save_writes_its_path "in.raw"%string).
  - reflexivity.
  - discriminate.
Defined.


(** ** The upload and download views *)

Lemma remove_absent (fs : Os.filesystem) (p : string) :
  fst (Os.remove fs p) p = None.
Proof.
  unfold Os.remove. destruct (fs p) eqn:E; simpl.
  - now rewrite String.eqb_refl.
  - exact E.
Qed.

Lemma remove_other (fs : Os.filesystem) (p p' : string) :
  p' <> p -> fst (Os.remove fs p) p' = fs p'.
Proof.
  intros Hp. unfold Os.remove. destruct (fs p); simpl; [| reflexivity].
  apply String.eqb_neq in Hp. now rewrite Hp.
Qed.

Lemma getsize_write (fs : Os.filesystem) (p content : string) :
  Os.getsize (Os.write fs p content) p
  = inr (Z.of_nat (String.length content)).
Proof. unfold Os.getsize, Os.write. now rewrite String.eqb_refl. Qed.

Lemma upload_is_not_download (u v : string) :
  Os.join App.UPLOAD_FOLDER ("upload_" ++ u)
  <> Os.join App.DOWNLOAD_FOLDER ("compressed_" ++ v).
Proof. discriminate. Qed.

Lemma allowed_is_not_empty (ext : string) :
  App.member ext App.allowed_extensions = true -> (ext =? "")%string = false.
Proof.
  intros H. apply String.eqb_neq. intros ->. discriminate H.
Qed.

Section ViewFacts.

Context {pillow : Pillow} {sklearn : Sklearn} {image_files : ImageFiles}
        {flask : App.Flask}.

Variable float_of_str : string -> Py.result float.

Lemma compression_failed_absent (fs : Os.filesystem) (p : string) :
  fst (App.compression_failed fs p) p = None
  /\ snd (App.compression_failed fs p)
     = (App.Error "Failed to compress image. Please try again.", 500).
Proof.
  unfold App.compression_failed, Os.path_exists. split; [| reflexivity].
  simpl. destruct (fs p) eqn:E; [apply remove_absent | exact E].
Qed.

Lemma compression_ratio_inr (osize csize : Z) (ratio : float) :
  App.compression_ratio osize csize = inr ratio ->
  osize <> 0
  /\ ratio
     = mul (Finite (Float64.round (inject_Z (osize - csize)
                                   / inject_Z osize)))
           (Finite (Float64.round 100)).
Proof.
  unfold App.compression_ratio, Py.int_truediv, Py.float_mul_int, Py.bind,
    Py.ret, Py.raise.
  destruct (osize =? 0) eqn:Ez; [discriminate |].
  apply Z.eqb_neq in Ez.
  destruct (of_Q_cases (inject_Z (osize - csize) / inject_Z osize))
    as [[_ ->] | [_ ->]]; [| discriminate].
  rewrite float_of_int_100. intros H. injection H as <-. now split.
Qed.

Lemma compress_and_report_inr (fs fs' : Os.filesystem)
    (up dp df : string) (q : float) (osize : Z) (r : App.response) :
  App.compress_and_report fs up dp df q osize = (fs', inr r) ->
  exists fs1 content ratio rounded,
    compress_image_file fs up q dp = (fs1, inr tt)
    /\ fs1 dp = Some content
    /\ osize <> 0
    /\ App.compression_ratio osize (Z.of_nat (String.length content))
       = inr ratio
    /\ Py.round1 ratio = inr rounded
    /\ fs' = fst (Os.remove fs1 up)
    /\ r = (App.Compressed ("/download/" ++ df)
              "Image compressed successfully!" osize
              (Z.of_nat (String.length content)) rounded df, 200).
Proof.
  unfold App.compress_and_report.
  destruct (compress_image_file fs up q dp) as [fs1 [e | []]];
    [discriminate |].
  unfold Os.getsize. destruct (fs1 dp) as [content |] eqn:Ed;
    [| discriminate]. cbn [Py.ret].
  destruct (App.compression_ratio osize (Z.of_nat (String.length content)))
    as [e | ratio] eqn:Eratio; [discriminate |].
  destruct (Os.remove fs1 up) as [fs2 [e | u]] eqn:Er; [discriminate |].
  destruct (Py.round1 ratio) as [e | rounded] eqn:Eround; [discriminate |].
  intros H. injection H as <- <-. exists fs1, content, ratio, rounded.
  destruct (compression_ratio_inr _ _ _ Eratio) as [Hz _].
  repeat split; try assumption. now rewrite Er.
Qed.

(** A request that passes the checks is saved, compressed and cleaned
    up. *)
Lemma upload_file_accepted (req : App.request) (uuid1 uuid2 : string)
    (fs : Os.filesystem) (file : App.file_storage) (q : float) :
  App.lookup "file" (App.files req) = Some file ->
  App.quality_of float_of_str req = inr q ->
  App.filename file <> ""%string ->
  App.member (App.extension_of file) App.allowed_extensions = true ->
  let up := Os.join App.UPLOAD_FOLDER
              ("upload_" ++ uuid1 ++ App.extension_of file) in
  let df := ("compressed_" ++ uuid2 ++ ".jpg")%string in
  let dp := Os.join App.DOWNLOAD_FOLDER df in
  App.upload_file float_of_str req uuid1 uuid2 fs
  = match App.compress_and_report (Os.write fs up (App.stream file))
            up dp df q (Z.of_nat (String.length (App.stream file))) with
    | (fs1, inl _) => App.compression_failed fs1 up
    | (fs1, inr r) => (fs1, r)
    end.
Proof.
  intros Hf Hq Hn Hm up df dp. unfold App.upload_file.
  rewrite Hf. unfold App.quality_of in Hq. rewrite Hq.
  apply String.eqb_neq in Hn. rewrite Hn.
  fold (App.extension_of file). rewrite Hm. cbn [negb].
  rewrite (allowed_is_not_empty _ Hm).
  fold up. rewrite getsize_write. reflexivity.
Qed.

(** X9: a request answered with 400 has changed no file, and it is one
    without a file part, with an empty file name, or with a file name
    whose lower-cased extension is not on the allow-list. *)
Theorem rejected_upload_changes_nothing (req : App.request)
    (uuid1 uuid2 : string) (fs : Os.filesystem) :
  snd (snd (App.upload_file float_of_str req uuid1 uuid2 fs)) = 400 ->
  fst (App.upload_file float_of_str req uuid1 uuid2 fs) = fs
  /\ (App.lookup "file" (App.files req) = None
      \/ exists file,
           App.lookup "file" (App.files req) = Some file
           /\ (App.filename file = ""%string
               \/ App.member (App.extension_of file) App.allowed_extensions
                  = false)).
Proof.
  destruct (App.lookup "file" (App.files req)) as [file |] eqn:Hf.
  2:{ intros _. unfold App.upload_file. rewrite Hf. split; [reflexivity |].
      now left. }
  destruct (App.quality_of float_of_str req) as [e | q] eqn:Hq.
  { unfold App.upload_file. rewrite Hf. unfold App.quality_of in Hq. rewrite Hq.
    simpl. discriminate. }
  destruct (String.eqb_spec (App.filename file) "") as [Hn | Hn].
  { intros _. unfold App.upload_file. rewrite Hf.
    unfold App.quality_of in Hq. rewrite Hq, Hn. simpl.
    split; [reflexivity |]. right. exists file. auto. }
  destruct (App.member (App.extension_of file) App.allowed_extensions) eqn:Hm.
  2:{ intros _. unfold App.upload_file. rewrite Hf.
      unfold App.quality_of in Hq. rewrite Hq.
      apply String.eqb_neq in Hn. rewrite Hn.
      fold (App.extension_of file). rewrite Hm. simpl.
      split; [reflexivity |]. right. exists file. auto. }
  rewrite (upload_file_accepted req uuid1 uuid2 fs file q Hf Hq Hn Hm).
  match goal with
  | |- context [App.compress_and_report ?a ?b ?c ?d ?e ?f] =>
      destruct (App.compress_and_report a b c d e f) as [fs1 [e1 | r]] eqn:Ec
  end.
  - destruct (compression_failed_absent fs1
                (Os.join App.UPLOAD_FOLDER
                   ("upload_" ++ uuid1 ++ App.extension_of file))) as [_ ->].
    discriminate.
  - destruct (compress_and_report_inr _ _ _ _ _ _ _ _ Ec)
      as (? & ? & ? & ? & _ & _ & _ & _ & _ & _ & ->). discriminate.
Qed.

(** X10: whatever the compression does, the temporary upload does not
    outlive the request: once a request has passed the checks, no file is
    left under the upload path, on success and on failure alike. *)
Theorem upload_is_cleaned_up (req : App.request) (uuid1 uuid2 : string)
    (fs : Os.filesystem) (file : App.file_storage) (q : float) :
  App.lookup "file" (App.files req) = Some file ->
  App.quality_of float_of_str req = inr q ->
  App.filename file <> ""%string ->
  App.member (App.extension_of file) App.allowed_extensions = true ->
  fst (App.upload_file float_of_str req uuid1 uuid2 fs)
      (Os.join App.UPLOAD_FOLDER ("upload_" ++ uuid1 ++ App.extension_of file))
  = None.
Proof.
  intros Hf Hq Hn Hm.
  rewrite (upload_file_accepted req uuid1 uuid2 fs file q Hf Hq Hn Hm).
  match goal with
  | |- context [App.compress_and_report ?a ?b ?c ?d ?e ?f] =>
      destruct (App.compress_and_report a b c d e f) as [fs1 [e1 | r]] eqn:Ec
  end.
  - apply compression_failed_absent.
  - destruct (compress_and_report_inr _ _ _ _ _ _ _ _ Ec)
      as (fs0 & content & ? & ? & _ & _ & _ & _ & _ & -> & _).
    apply remove_absent.
Qed.

(** What a 200 tells. *)
Lemma upload_file_200 (req : App.request) (uuid1 uuid2 : string)
    (fs : Os.filesystem) :
  snd (snd (App.upload_file float_of_str req uuid1 uuid2 fs)) = 200 ->
  exists file content ratio rounded,
    App.lookup "file" (App.files req) = Some file
    /\ App.member (App.extension_of file) App.allowed_extensions = true
    /\ App.stream file <> ""%string
    /\ fst (App.upload_file float_of_str req uuid1 uuid2 fs)
         (Os.join App.DOWNLOAD_FOLDER ("compressed_" ++ uuid2 ++ ".jpg"))
       = Some content
    /\ App.compression_ratio
         (Z.of_nat (String.length (App.stream file)))
         (Z.of_nat (String.length content)) = inr ratio
    /\ Py.round1 ratio = inr rounded
    /\ fst (snd (App.upload_file float_of_str req uuid1 uuid2 fs))
       = App.Compressed ("/download/compressed_" ++ uuid2 ++ ".jpg")
           "Image compressed successfully!"
           (Z.of_nat (String.length (App.stream file)))
           (Z.of_nat (String.length content))
           rounded
           ("compressed_" ++ uuid2 ++ ".jpg").
Proof.
  destruct (App.lookup "file" (App.files req)) as [file |] eqn:Hf.
  2:{ unfold App.upload_file. rewrite Hf. simpl. discriminate. }
  destruct (App.quality_of float_of_str req) as [e | q] eqn:Hq.
  { unfold App.upload_file. rewrite Hf. unfold App.quality_of in Hq. rewrite Hq.
    simpl. discriminate. }
  destruct (String.eqb_spec (App.filename file) "") as [Hn | Hn].
  { unfold App.upload_file. rewrite Hf.
    unfold App.quality_of in Hq. rewrite Hq, Hn. simpl. discriminate. }
  destruct (App.member (App.extension_of file) App.allowed_extensions) eqn:Hm.
  2:{ unfold App.upload_file. rewrite Hf.
      unfold App.quality_of in Hq. rewrite Hq.
      apply String.eqb_neq in Hn. rewrite Hn.
      fold (App.extension_of file). rewrite Hm. simpl. discriminate. }
  rewrite (upload_file_accepted req uuid1 uuid2 fs file q Hf Hq Hn Hm).
  match goal with
  | |- context [App.compress_and_report ?a ?b ?c ?d ?e ?f] =>
      destruct (App.compress_and_report a b c d e f) as [fs1 [e1 | r]] eqn:Ec
  end.
  - destruct (compression_failed_absent fs1
                (Os.join App.UPLOAD_FOLDER
                   ("upload_" ++ uuid1 ++ App.extension_of file))) as [_ ->].
    discriminate.
  - destruct (compress_and_report_inr _ _ _ _ _ _ _ _ Ec)
      as (fs0 & content & ratio & rounded & _ & Hd & Hz & Hratio & Hround
          & -> & ->).
    intros _. exists file, content, ratio, rounded. split; [reflexivity |].
    split; [exact Hm |]. split.
    + intros E. rewrite E in Hz. now apply Hz.
    + split; [| split; [exact Hratio | split; [exact Hround | reflexivity]]].
      cbn [fst]. rewrite remove_other; [exact Hd |].
      intros E. symmetry in E. revert E. apply upload_is_not_download.
Qed.

(** X11: a 200 reports what is on disk.  The compressed file exists under
    the download folder as [compressed_<uuid2>.jpg], that name and the
    link [/download/<name>] are in the answer, the sizes reported are the
    length of the upload (never 0) and of the compressed file, and the
    ratio is the float the code computes: the relative difference of the
    sizes rounded to a float, times 100, rounded to a float, and then
    [round(., 1)] of that float. *)
Theorem success_reports_the_files (req : App.request)
    (uuid1 uuid2 : string) (fs : Os.filesystem) :
  snd (snd (App.upload_file float_of_str req uuid1 uuid2 fs)) = 200 ->
  exists file content ratio rounded,
    App.lookup "file" (App.files req) = Some file
    /\ App.stream file <> ""%string
    /\ fst (App.upload_file float_of_str req uuid1 uuid2 fs)
         (Os.join App.DOWNLOAD_FOLDER ("compressed_" ++ uuid2 ++ ".jpg"))
       = Some content
    /\ ratio
       = mul (Finite (Float64.round
                        (inject_Z (Z.of_nat (String.length (App.stream file))
                                   - Z.of_nat (String.length content))
                         / inject_Z
                             (Z.of_nat (String.length (App.stream file))))))
             (Finite (Float64.round 100))
    /\ Py.round1 ratio = inr rounded
    /\ fst (snd (App.upload_file float_of_str req uuid1 uuid2 fs))
       = App.Compressed ("/download/compressed_" ++ uuid2 ++ ".jpg")
           "Image compressed successfully!"
           (Z.of_nat (String.length (App.stream file)))
           (Z.of_nat (String.length content))
           rounded
           ("compressed_" ++ uuid2 ++ ".jpg").
Proof.
  intros H. destruct (upload_file_200 req uuid1 uuid2 fs H)
    as (file & content & ratio & rounded & Hf & _ & Hs & Hd & Hratio & Hround
        & Hb).
  exists file, content, ratio, rounded.
  destruct (compression_ratio_inr _ _ _ Hratio) as [_ E].
  repeat split; assumption.
Qed.

(** X12: an upload answered with 200 can be downloaded: asking
    [download_file] for the file name in the answer finds the file and,
    when [send_file] returns for a path that holds a file, sends it under
    the name [compressed_compressed_<uuid2>.jpg]. *)
Theorem upload_then_download (req : App.request) (uuid1 uuid2 : string)
    (dirs : Os.directories) (fs : Os.filesystem) :
  App.sends_files ->
  snd (snd (App.upload_file float_of_str req uuid1 uuid2 fs)) = 200 ->
  exists dp message osize csize ratio name,
    fst (snd (App.upload_file float_of_str req uuid1 uuid2 fs))
    = App.Compressed dp message osize csize ratio name
    /\ dp = ("/download/" ++ name)%string
    /\ App.download_file dirs
         (fst (App.upload_file float_of_str req uuid1 uuid2 fs)) name
       = (App.Attachment
            ("static/downloads/compressed_" ++ uuid2 ++ ".jpg")
            ("compressed_compressed_" ++ uuid2 ++ ".jpg")
            "image/jpeg", 200).
Proof.
  intros Hsend H. destruct (upload_file_200 req uuid1 uuid2 fs H)
    as (file & content & ratio & rounded & _ & _ & _ & Hd & _ & _ & Hb).
  rewrite Hb. do 6 eexists. split; [reflexivity |]. split; [reflexivity |].
  unfold App.download_file, Os.exists_, Os.path_exists.
  change (Os.join App.DOWNLOAD_FOLDER ("compressed_" ++ uuid2 ++ ".jpg"))
    with ("static/downloads/compressed_" ++ uuid2 ++ ".jpg")%string in *.
  rewrite Hd, orb_true_r. cbn [negb].
  now rewrite (Hsend dirs _ _ _ _ content Hd).
Qed.

(** X13: [download_file] looks where [os.path.join] points.  For a name
    that does not start with a slash that is
    [static/downloads/<name>]; for a name that starts with a slash the
    download folder is dropped and the name itself is the path.  The
    answer is 404 when neither a file nor a directory is there;
    otherwise [send_file] is called, and the answer is the file as
    [compressed_<name>] when it returns and 500 when it raises. *)
Theorem download_follows_join (dirs : Os.directories) (fs : Os.filesystem)
    (name : string) :
  let target := if Os.startswith_sep name then name
                else ("static/downloads/" ++ name)%string in
  (fs target = None -> dirs target = false ->
   App.download_file dirs fs name = (App.Error "File not found", 404))
  /\ (fs target <> None \/ dirs target = true ->
      (App.send_file dirs fs target ("compressed_" ++ name) "image/jpeg" = inr tt ->
       App.download_file dirs fs name
       = (App.Attachment target ("compressed_" ++ name) "image/jpeg", 200))
      /\ (forall e,
            App.send_file dirs fs target ("compressed_" ++ name) "image/jpeg"
            = inl e ->
            App.download_file dirs fs name
            = (App.Error "Error downloading file", 500))).
Proof.
  assert (E : Os.join App.DOWNLOAD_FOLDER name
              = if Os.startswith_sep name then name
                else ("static/downloads/" ++ name)%string).
  { unfold Os.join. now destruct (Os.startswith_sep name). }
  unfold App.download_file, Os.exists_, Os.path_exists. rewrite E. split.
  - intros -> ->. reflexivity.
  - intros Hex.
    assert (Hb : (dirs (if Os.startswith_sep name then name
                        else ("static/downloads/" ++ name)%string)
                  || match fs (if Os.startswith_sep name then name
                               else ("static/downloads/" ++ name)%string) with
                     | Some _ => true
                     | None => false
                     end)%bool = true).
    { destruct Hex as [Hf | ->]; [| reflexivity].
      destruct (fs _); [apply orb_true_r | congruence]. }
    rewrite Hb. cbn [negb]. split.
    + intros ->. reflexivity.
    + intros e ->. reflexivity.
Qed.

End ViewFacts.

Lemma reference_sends_files : @App.sends_files ReferenceFiles.flask.
Proof.
  intros dirs fs path download_name mimetype content H. simpl.
  unfold ReferenceFiles.send_file. now rewrite H.
Qed.

Lemma rejected_upload_changes_nothing_witness :
  fst (ReferenceFiles.upload_file ReferenceFiles.notes_request "u1" "u2"
         ReferenceFiles.no_files) = ReferenceFiles.no_files.
Proof.
  apply (@rejected_upload_changes_nothing Reference.pillow Reference.sklearn
           ReferenceFiles.image_files ReferenceFiles.float_of_str
           ReferenceFiles.notes_request "u1" "u2" ReferenceFiles.no_files).
  reflexivity.
Defined.

Lemma upload_is_cleaned_up_witness :
  fst (ReferenceFiles.upload_file ReferenceFiles.broken_request "u1" "u2"
         ReferenceFiles.no_files) "static/uploads/upload_u1.png"%string
  = None.
Proof.
  apply (@upload_is_cleaned_up Reference.pillow Reference.sklearn
           ReferenceFiles.image_files ReferenceFiles.float_of_str
           ReferenceFiles.broken_request "u1" "u2" ReferenceFiles.no_files
           (App.FileStorage "broken.png" "not a pixel")
           (Finite (Float64.round 80))).
  - reflexivity.
  - vm_compute. reflexivity.
  - discriminate.
  - reflexivity.
Defined.

(** The strings the example parser reads. *)
Example float_of_str_examples :
  (exists v, ReferenceFiles.float_of_str "50.5" = inr (Finite v)
             /\ (v == 101 # 2)%Q)
  /\ (exists v, ReferenceFiles.float_of_str "-5" = inr (Finite v)
                /\ (v == -5 # 1)%Q)
  /\ (exists v, ReferenceFiles.float_of_str "28.57142857142857"
                = inr (Finite v)
                /\ (v == 2010535547933257 # 70368744177664)%Q)
  /\ (exists v, ReferenceFiles.float_of_str "1e308" = inr (Finite v)
                /\ (v == inject_Z (5010420900022432 * 2 ^ 971))%Q)
  /\ ReferenceFiles.float_of_str "1e400" = inr (Infinity false)
  /\ ReferenceFiles.float_of_str "-inf" = inr (Infinity true)
  /\ ReferenceFiles.float_of_str "NaN" = inr NaN
  /\ ReferenceFiles.float_of_str "high"
     = inl (Py.ValueError "could not convert string to float")
  /\ ReferenceFiles.float_of_str ""
     = inl (Py.ValueError "could not convert string to float").
Proof.
  repeat split;
    try (eexists; split; vm_compute; reflexivity);
    vm_compute; reflexivity.
Qed.

(** For sizes 400 and 285 the code reports 28.7: the float ratio is
    28.749999999999996, below the tie that the exact ratio 28.75 is. *)
Example ratio_400_285 :
  exists ratio rounded,
    App.compression_ratio 400 285 = inr (Finite ratio)
    /\ (ratio == 8092405580431359 # 281474976710656)%Q
    /\ Py.round1 (Finite ratio) = inr (Finite rounded)
    /\ (rounded == Float64.round (287 # 10))%Q
    /\ ~ (rounded == Float64.round (288 # 10))%Q.
Proof.
  eexists. eexists. split; [vm_compute; reflexivity |].
  split; [vm_compute; reflexivity |].
  split; [vm_compute; reflexivity |].
  split; [vm_compute; reflexivity |].
  vm_compute. discriminate.
Qed.

Lemma success_reports_the_files_witness :
  exists content rounded,
    fst (ReferenceFiles.upload_file ReferenceFiles.photo_request
           "u1" "u2" ReferenceFiles.no_files)
      "static/downloads/compressed_u2.jpg"%string
    = Some content
    /\ fst (snd (ReferenceFiles.upload_file ReferenceFiles.photo_request
                   "u1" "u2" ReferenceFiles.no_files))
       = App.Compressed "/download/compressed_u2.jpg"
           "Image compressed successfully!" 3
           (Z.of_nat (String.length content)) rounded "compressed_u2.jpg".
Proof.
  destruct (@success_reports_the_files Reference.pillow Reference.sklearn
              ReferenceFiles.image_files ReferenceFiles.float_of_str
              ReferenceFiles.photo_request "u1" "u2" ReferenceFiles.no_files)
    as (file & content & ratio & rounded & Hf & _ & Hd & _ & _ & Hb).
  - vm_compute. reflexivity.
  - injection Hf as <-. exists content, rounded.
    split; [exact Hd | exact Hb].
Defined.

Lemma upload_then_download_witness :
  exists dp message osize csize ratio name,
    fst (snd (ReferenceFiles.upload_file ReferenceFiles.photo_request
                "u1" "u2" ReferenceFiles.no_files))
    = App.Compressed dp message osize csize ratio name
    /\ dp = ("/download/" ++ name)%string
    /\ ReferenceFiles.download_file ReferenceFiles.folders
         (fst (ReferenceFiles.upload_file ReferenceFiles.photo_request
                 "u1" "u2" ReferenceFiles.no_files)) name
       = (App.Attachment
            ("static/downloads/compressed_" ++ "u2" ++ ".jpg")
            ("compressed_compressed_" ++ "u2" ++ ".jpg")
            "image/jpeg", 200).
Proof.
  apply (@upload_then_download Reference.pillow Reference.sklearn
           ReferenceFiles.image_files ReferenceFiles.flask
           ReferenceFiles.float_of_str
           ReferenceFiles.photo_request "u1" "u2" ReferenceFiles.folders
           ReferenceFiles.no_files).
  - apply reference_sends_files.
  - vm_compute. reflexivity.
Defined.

(** The empty name joins to the download folder itself, which exists:
    [send_file] is called on a directory and its exception is answered
    with 500. *)
Example download_of_the_folder :
  ReferenceFiles.download_file ReferenceFiles.folders
    ReferenceFiles.no_files ""
  = (App.Error "Error downloading file", 500)
  /\ ReferenceFiles.download_file ReferenceFiles.folders
       ReferenceFiles.no_files "missing.jpg"
     = (App.Error "File not found", 404).
Proof. split; vm_compute; reflexivity. Qed.

(** ** Extensions *)

Lemma append_nil_r_aux (s : string) : (s ++ "")%string = s.
Proof. induction s as [| a s IH]; simpl; [reflexivity | now rewrite IH]. Qed.

Lemma take_drop (n : nat) (s : string) : (Os.take n s ++ Os.drop n s)%string = s.
Proof.
  revert s. induction n as [| n IH]; intros [| a s]; simpl; try reflexivity.
  now rewrite IH.
Qed.

Lemma rfind_from_spec (c : ascii) (s : string) (i last : Z) :
  (Os.rfind_from c s i last = last
   /\ forall k, String.get k s <> Some c)
  \/ (exists k,
        Os.rfind_from c s i last = i + Z.of_nat k
        /\ String.get k s = Some c
        /\ forall k', (k < k')%nat -> String.get k' s <> Some c).
Proof.
  revert i last. induction s as [| a s IH]; intros i last; simpl.
  - left. split; [reflexivity | intros k; destruct k; discriminate].
  - destruct (IH (i + 1) (if Ascii.eqb a c then i else last))
      as [[E Hnone] | (k & E & Hk & Hafter)].
    + destruct (Ascii.eqb_spec a c) as [-> | Hac].
      * right. exists 0%nat. rewrite E. split; [lia |].
        split; [reflexivity |]. intros [| k'] Hk'; [lia | apply Hnone].
      * left. split; [exact E |]. intros [| k]; [congruence | apply Hnone].
    + right. exists (S k). rewrite E. split; [lia |]. split; [exact Hk |].
      intros [| k'] Hk'; [lia |]. apply Hafter. lia.
Qed.

Lemma drop_get (n : nat) (s : string) (c : ascii) :
  String.get n s = Some c ->
  exists rest,
    Os.drop n s = String c rest
    /\ forall k, String.get k rest = String.get (S n + k) s.
Proof.
  revert s. induction n as [| n IH]; intros [| a s] H; simpl in H;
    try discriminate.
  - injection H as ->. exists s. split; [reflexivity | reflexivity].
  - destruct (IH s H) as (rest & E & Hrest). exists rest.
    split; [exact E | exact Hrest].
Qed.

(** [splitext] cuts a path in two parts that give the path back when put
    together; the extension is empty, or a dot followed by characters
    among which there is no further dot and no slash. *)
Lemma splitext_parts (p : string) :
  (fst (Os.splitext p) ++ snd (Os.splitext p))%string = p
  /\ (snd (Os.splitext p) = ""%string
      \/ exists rest,
           snd (Os.splitext p) = String "." rest
           /\ forall k, String.get k rest <> Some "."%char
                        /\ String.get k rest <> Some "/"%char).
Proof.
  unfold Os.splitext, Os.rfind.
  destruct (Os.rfind_from "/" p 0 (-1) <? Os.rfind_from "." p 0 (-1)) eqn:Elt;
    [| split; [apply append_nil_r_aux | now left]].
  destruct (Os.has_name p _ _); [| split; [apply append_nil_r_aux | now left]].
  simpl. split; [apply take_drop |]. right.
  apply Z.ltb_lt in Elt.
  destruct (rfind_from_spec "." p 0 (-1)) as [[Ed _] | (kd & Ed & Hd & Hdafter)].
  { exfalso. rewrite Ed in Elt.
    destruct (rfind_from_spec "/" p 0 (-1)) as [[Es _] | (ks & Es & _)]; lia. }
  rewrite Ed. simpl. rewrite Nat2Z.id.
  destruct (drop_get kd p "." Hd) as (rest & E & Hrest).
  exists rest. split; [exact E |]. intros k. rewrite Hrest. split.
  - apply Hdafter. lia.
  - destruct (rfind_from_spec "/" p 0 (-1))
      as [[_ Hnone] | (ks & Es & _ & Hsafter)]; [apply Hnone |].
    apply Hsafter. lia.
Qed.

Lemma lower_ascii_dot (a : ascii) :
  Ascii.eqb (Os.lower_ascii a) "." = Ascii.eqb a ".".
Proof.
  destruct a as [[|] [|] [|] [|] [|] [|] [|] [|]]; reflexivity.
Qed.

Lemma lower_ascii_sep (a : ascii) :
  Ascii.eqb (Os.lower_ascii a) "/" = Ascii.eqb a "/".
Proof.
  destruct a as [[|] [|] [|] [|] [|] [|] [|] [|]]; reflexivity.
Qed.

Lemma lower_ascii_idempotent (a : ascii) :
  Os.lower_ascii (Os.lower_ascii a) = Os.lower_ascii a.
Proof.
  destruct a as [[|] [|] [|] [|] [|] [|] [|] [|]]; reflexivity.
Qed.

Lemma lower_idempotent (s : string) : Os.lower (Os.lower s) = Os.lower s.
Proof.
  induction s as [| a s IH]; simpl; [reflexivity |].
  now rewrite lower_ascii_idempotent, IH.
Qed.

Lemma rfind_from_lower (c : ascii) (s : string) (i last : Z) :
  (forall a, Ascii.eqb (Os.lower_ascii a) c = Ascii.eqb a c) ->
  Os.rfind_from c (Os.lower s) i last = Os.rfind_from c s i last.
Proof.
  intros Hc. revert i last. induction s as [| a s IH]; intros i last; simpl.
  - reflexivity.
  - now rewrite Hc, IH.
Qed.

Lemma get_lower (k : nat) (s : string) :
  String.get k (Os.lower s) = option_map Os.lower_ascii (String.get k s).
Proof.
  revert k. induction s as [| a s IH]; intros [| k]; simpl;
    try reflexivity. apply IH.
Qed.

Lemma has_name_lower (p : string) (i n : nat) :
  Os.has_name (Os.lower p) i n = Os.has_name p i n.
Proof.
  revert i. induction n as [| n IH]; intros i; simpl; [reflexivity |].
  rewrite get_lower. destruct (String.get i p) as [a |]; simpl;
    [| reflexivity].
  now rewrite lower_ascii_dot, IH.
Qed.

Lemma take_lower (n : nat) (s : string) :
  Os.take n (Os.lower s) = Os.lower (Os.take n s).
Proof.
  revert s. induction n as [| n IH]; intros [| a s]; simpl; try reflexivity.
  now rewrite IH.
Qed.

Lemma drop_lower (n : nat) (s : string) :
  Os.drop n (Os.lower s) = Os.lower (Os.drop n s).
Proof.
  revert s. induction n as [| n IH]; intros [| a s]; simpl; try reflexivity.
  apply IH.
Qed.

Lemma splitext_lower (p : string) :
  Os.splitext (Os.lower p)
  = (Os.lower (fst (Os.splitext p)), Os.lower (snd (Os.splitext p))).
Proof.
  unfold Os.splitext, Os.rfind.
  rewrite !rfind_from_lower by (apply lower_ascii_dot || apply lower_ascii_sep).
  rewrite has_name_lower, take_lower, drop_lower.
  destruct (_ <? _); [| reflexivity].
  now destruct (Os.has_name p _ _).
Qed.

Lemma get_lower_not (k : nat) (s : string) (c : ascii) :
  (forall a, Ascii.eqb (Os.lower_ascii a) c = Ascii.eqb a c) ->
  String.get k s <> Some c -> String.get k (Os.lower s) <> Some c.
Proof.
  intros Hc Hk. rewrite get_lower. destruct (String.get k s) as [a |];
    simpl; [| discriminate].
  intros E. injection E as E. apply Hk. f_equal.
  apply Ascii.eqb_eq. rewrite <- Hc. now apply Ascii.eqb_eq.
Qed.

(** X14: the extension [upload_file] checks is cut off the end of the file
    name (what is left and what the file name ends with give the name
    back); it is empty, or a dot followed by characters among which there
    is no further dot and no slash: only the last suffix of the last path
    component counts. *)
Theorem checked_extension_shape (file : App.file_storage) :
  (fst (Os.splitext (App.filename file))
   ++ snd (Os.splitext (App.filename file)))%string = App.filename file
  /\ (App.extension_of file = ""%string
      \/ exists rest,
           App.extension_of file = String "." rest
           /\ forall k, String.get k rest <> Some "."%char
                        /\ String.get k rest <> Some "/"%char).
Proof.
  destruct (splitext_parts (App.filename file)) as [Hcut Hext].
  split; [exact Hcut |]. unfold App.extension_of.
  destruct Hext as [-> | (rest & -> & Hrest)]; [now left |].
  right. exists (Os.lower rest). split; [reflexivity |].
  intros k. destruct (Hrest k) as [Hd Hs]. split.
  - now apply get_lower_not; [apply lower_ascii_dot |].
  - now apply get_lower_not; [apply lower_ascii_sep |].
Qed.

(** X15: the allow-list does not look at the case of a file name: it
    gives the same verdict on a name and on its lower-case form; and for
    a name of ASCII characters the two have the same extension as far as
    the check is concerned. *)
Theorem extension_check_ignores_case (name content1 content2 : string) :
  App.member (App.extension_of (App.FileStorage (Os.lower name) content1))
    App.allowed_extensions
  = App.member (App.extension_of (App.FileStorage name content2))
      App.allowed_extensions
  /\ (Os.is_ascii name = true ->
      App.extension_of (App.FileStorage (Os.lower name) content1)
      = App.extension_of (App.FileStorage name content2)).
Proof.
  assert (E : App.extension_of (App.FileStorage (Os.lower name) content1)
              = App.extension_of (App.FileStorage name content2)).
  { unfold App.extension_of. simpl. rewrite splitext_lower. simpl.
    apply lower_idempotent. }
  split; [now rewrite E | intros _; exact E].
Qed.

Lemma extension_check_ignores_case_witness :
  App.member (App.extension_of (App.FileStorage "photo.jpg" "abc"))
    App.allowed_extensions
  = App.member (App.extension_of (App.FileStorage "Photo.JPG" "abc"))
      App.allowed_extensions
  /\ App.extension_of (App.FileStorage "photo.jpg" "abc")
     = App.extension_of (App.FileStorage "Photo.JPG" "abc").
Proof.
  destruct (extension_check_ignores_case "Photo.JPG" "abc" "abc")
    as [Hverdict Hext].
  split; [exact Hverdict | apply Hext; reflexivity].
Defined.

Lemma rfind_from_absent (c : ascii) (s : string) (i last : Z) :
  (forall k, String.get k s <> Some c) -> Os.rfind_from c s i last = last.
Proof.
  intros Hnone.
  destruct (rfind_from_spec c s i last) as [[E _] | (k & _ & Hk & _)];
    [exact E | now destruct (Hnone k)].
Qed.

Lemma splitext_hidden (rest : string) :
  (forall k, String.get k rest <> Some "."%char
             /\ String.get k rest <> Some "/"%char) ->
  Os.splitext (String "." rest) = (String "." rest, ""%string).
Proof.
  intros Hrest. unfold Os.splitext, Os.rfind. simpl.
  rewrite (rfind_from_absent "." rest) by (intros k; apply Hrest).
  rewrite (rfind_from_absent "/" rest) by (intros k; apply Hrest).
  reflexivity.
Qed.

Section HiddenFiles.

Context {pillow : Pillow} {sklearn : Sklearn} {image_files : ImageFiles}.

Variable float_of_str : string -> Py.result float.

(** X16: a file whose name has only a leading dot, such as [.jpg], has no
    extension for [splitext]; [upload_file] answers such an upload with
    400 "Invalid file type" and stores nothing, also when what follows
    the dot is on the allow-list. *)
Theorem hidden_file_is_refused (req : App.request) (uuid1 uuid2 : string)
    (fs : Os.filesystem) (rest content : string) (q : float) :
  App.lookup "file" (App.files req)
    = Some (App.FileStorage (String "." rest) content) ->
  App.quality_of float_of_str req = inr q ->
  (forall k, String.get k rest <> Some "."%char
             /\ String.get k rest <> Some "/"%char) ->
  App.upload_file float_of_str req uuid1 uuid2 fs
  = (fs, (App.Error
            "Invalid file type. Please use JPG, PNG, WebP, BMP, or TIFF.",
          400)).
Proof.
  intros Hf Hq Hrest. unfold App.upload_file. rewrite Hf.
  unfold App.quality_of in Hq. rewrite Hq. cbn [App.filename].
  rewrite (splitext_hidden rest Hrest). reflexivity.
Qed.

End HiddenFiles.

Lemma hidden_file_is_refused_witness :
  ReferenceFiles.upload_file
    (App.Request [("file"%string, App.FileStorage ".jpg" "abc")] [])
    "u1" "u2" ReferenceFiles.no_files
  = (ReferenceFiles.no_files,
     (App.Error
        "Invalid file type. Please use JPG, PNG, WebP, BMP, or TIFF.", 400)).
Proof.
  apply (@hidden_file_is_refused Reference.pillow Reference.sklearn
           ReferenceFiles.image_files ReferenceFiles.float_of_str
           (App.Request [("file"%string, App.FileStorage ".jpg" "abc")] [])
           "u1" "u2" ReferenceFiles.no_files "jpg" "abc"
           (Finite (Float64.round 80))).
  - reflexivity.
  - vm_compute. reflexivity.
  - intros k. do 4 (destruct k as [| k]; [split; discriminate |]).
    split; discriminate.
Defined.

Lemma download_follows_join_witness :
  ReferenceFiles.download_file ReferenceFiles.folders
    (Os.write ReferenceFiles.no_files
       "static/downloads/compressed_u2.jpg" "abc")
    "compressed_u2.jpg"
  = (App.Attachment "static/downloads/compressed_u2.jpg"
       "compressed_compressed_u2.jpg" "image/jpeg", 200)
  /\ ReferenceFiles.download_file ReferenceFiles.folders
       ReferenceFiles.no_files ""
     = (App.Error "Error downloading file", 500).
Proof.
  split.
  - destruct (@download_follows_join ReferenceFiles.flask
                ReferenceFiles.folders
                (Os.write ReferenceFiles.no_files
                   "static/downloads/compressed_u2.jpg" "abc")
                "compressed_u2.jpg") as [_ Hfound].
    destruct Hfound as [Hsent _]; [left; discriminate |].
    apply Hsent. reflexivity.
  - destruct (@download_follows_join ReferenceFiles.flask
                ReferenceFiles.folders ReferenceFiles.no_files "")
      as [_ Hfound].
    destruct Hfound as [_ Hraised]; [right; reflexivity |].
    apply (Hraised (Py.Exn "IsADirectoryError" "static/downloads/")).
    reflexivity.
Defined.

Section FailedUploads.

Context {pillow : Pillow} {sklearn : Sklearn} {image_files : ImageFiles}.

Variable float_of_str : string -> Py.result float.

(** X17: an accepted upload that cannot be opened as an image, or on which
    the transform raises, is answered with 500 "Failed to compress image"
    and leaves no trace: the temporary upload is removed, no compressed
    file is written, and every other file is as before the request. *)
Theorem failed_upload_leaves_no_trace (req : App.request)
    (uuid1 uuid2 : string) (fs : Os.filesystem) (file : App.file_storage)
    (q : float) :
  let up := Os.join App.UPLOAD_FOLDER
              ("upload_" ++ uuid1 ++ App.extension_of file) in
  App.lookup "file" (App.files req) = Some file ->
  App.quality_of float_of_str req = inr q ->
  App.filename file <> ""%string ->
  App.member (App.extension_of file) App.allowed_extensions = true ->
  ((exists e, image_open (Os.write fs up (App.stream file)) up = inl e)
   \/ exists img e,
        image_open (Os.write fs up (App.stream file)) up = inr img
        /\ compress_image img q = inl e) ->
  snd (App.upload_file float_of_str req uuid1 uuid2 fs)
  = (App.Error "Failed to compress image. Please try again.", 500)
  /\ fst (App.upload_file float_of_str req uuid1 uuid2 fs) up = None
  /\ forall p, p <> up ->
       fst (App.upload_file float_of_str req uuid1 uuid2 fs) p = fs p.
Proof.
  intros up Hf Hq Hn Hm Hfail.
  rewrite (upload_file_accepted float_of_str req uuid1 uuid2 fs file q
             Hf Hq Hn Hm).
  fold up.
  assert (E : exists e,
            compress_image_file (Os.write fs up (App.stream file)) up q
              (Os.join App.DOWNLOAD_FOLDER ("compressed_" ++ uuid2 ++ ".jpg"))
            = (Os.write fs up (App.stream file), inl e)).
  { unfold compress_image_file.
    destruct Hfail as [[e ->] | (img & e & -> & He)]; [now exists e |].
    rewrite compress_image_body in He. rewrite He. now exists e. }
  destruct E as [e E]. unfold App.compress_and_report. rewrite E.
  unfold App.compression_failed, Os.path_exists, Os.remove, Os.write.
  rewrite String.eqb_refl. simpl. rewrite String.eqb_refl.
  split; [reflexivity |]. split; [reflexivity |].
  intros p Hp. apply String.eqb_neq in Hp. now rewrite Hp.
Qed.

End FailedUploads.

Lemma failed_upload_leaves_no_trace_witness :
  snd (ReferenceFiles.upload_file ReferenceFiles.broken_request "u1" "u2"
         ReferenceFiles.no_files)
  = (App.Error "Failed to compress image. Please try again.", 500)
  /\ fst (ReferenceFiles.upload_file ReferenceFiles.broken_request "u1" "u2"
            ReferenceFiles.no_files) "static/uploads/upload_u1.png"%string
     = None
  /\ forall p, p <> "static/uploads/upload_u1.png"%string ->
       fst (ReferenceFiles.upload_file ReferenceFiles.broken_request
              "u1" "u2" ReferenceFiles.no_files) p
       = ReferenceFiles.no_files p.
Proof.
  apply (@failed_upload_leaves_no_trace Reference.pillow Reference.sklearn
           ReferenceFiles.image_files ReferenceFiles.float_of_str
           ReferenceFiles.broken_request "u1" "u2" ReferenceFiles.no_files
           (App.FileStorage "broken.png" "not a pixel")
           (Finite (Float64.round 80))).
  - reflexivity.
  - vm_compute. reflexivity.
  - discriminate.
  - reflexivity.
  - left. eexists. reflexivity.
Defined.
